(** * generate-samples: a bank of sine-tone WAV samples

    Shallow embedding of [generate-samples.py] and the properties of its
    specification.

    Numbers.  Python [float] and NumPy [float64] values are modelled by
    real numbers.  The product [sample_rate * duration], whose integer
    part is the number of sample times, is rounded to the nearest double
    as the code rounds it ([float_mul]).  The other operations are exact:
    their results stand for the doubles of the code up to rounding, and a
    real at or beyond the double range stands for an infinity (NumPy
    array arithmetic and the float product never raise).  The exceptions
    of the Python-level operations are kept: converting an [int] that is
    outside the double range, a [**] whose result is outside it, or
    [int()] of a product outside it raises [OverflowError];
    [np.linspace] with a negative count raises [ValueError].

    Files.  The file system is a finite map from paths to byte strings;
    [save_wav_file] overwrites the entry of its path.  Directories
    ([os.makedirs]) and the progress lines printed by [main] are not part
    of the state. *)

From Stdlib Require Import Reals Lra Lia ZArith String Ascii DecimalString.
From Stdlib Require Import Strings.Byte Sorted.
From stdpp Require Import gmap strings list.

(* ================================================================== *)
(** * Part I: the program *)
(* ================================================================== *)

(** ** Exceptions and results *)

Inductive exn : Set :=
| OverflowError
| ValueError
| IndexError
| KeyError
| StructError
| WaveError.

Inductive result (A : Type) : Type :=
| Ok (a : A)
| Raise (e : exn).

Arguments Ok {A} a.
Arguments Raise {A} e.

Definition bind {A B : Type} (r : result A) (k : A -> result B) : result B :=
  match r with
  | Ok a => k a
  | Raise e => Raise e
  end.

Declare Scope result_scope.
Delimit Scope result_scope with result.
Notation "'let*' x ':=' r 'in' k" := (bind r (fun x => k))
  (at level 10, x name, r at level 100, k at level 200) : result_scope.
Local Open Scope result_scope.

(** [for x in xs: st = body x st], stopping at the first exception. *)
Fixpoint for_each {A S : Type} (xs : list A) (body : A -> S -> result S)
    (st : S) : result S :=
  match xs with
  | [] => Ok st
  | x :: xs' => let* st' := body x st in for_each xs' body st'
  end.

(** [[f x for x in xs]], stopping at the first exception. *)
Fixpoint map_result {A B : Type} (f : A -> result B) (xs : list A)
    : result (list B) :=
  match xs with
  | [] => Ok []
  | x :: xs' =>
      let* y := f x in
      let* ys := map_result f xs' in
      Ok (y :: ys)
  end.

(** ** Floating point *)

Local Open Scope R_scope.

(** Doubles are finite below [2^1024] in magnitude. *)
Definition dbl_limit : R := 2 ^ 1024.

Definition is_finite (x : R) : bool :=
  if Rlt_dec (Rabs x) dbl_limit then true else false.

(** Implicit [int] to [float] conversion of a mixed operation.  An
    integer below [2^53] in magnitude converts exactly; the rounding of
    the larger ones is left out, and so is the band below [2^1024] on
    which the rounded value is already out of range. *)
Definition float_of_int (z : Z) : result R :=
  if is_finite (IZR z) then Ok (IZR z) else Raise OverflowError.

(** Round to the nearest integer, ties to the even one. *)
Definition rne (y : R) : Z :=
  let f := Zfloor y in
  let d := y - IZR f in
  if Rlt_dec d (1 / 2) then f
  else if Rlt_dec (1 / 2) d then (f + 1)%Z
  else if Z.even f then f else (f + 1)%Z.

(** The binade of a non-zero [x]: [2^e <= |x| < 2^(e+1)]. *)
Definition binade (x : R) : Z := Zfloor (ln (Rabs x) / ln 2).

(** The spacing of the doubles around [x]: 53 significant bits in the
    normal range, [2^-1074] below it. *)
Definition ulp (x : R) : R := Rpower 2 (IZR (Z.max (binade x) (-1022) - 52)).

(** From this magnitude on, a real rounds to an infinity. *)
Definition dbl_round_limit : R := 2 ^ 1024 - 2 ^ 970.

(** IEEE 754 rounding of a real to the nearest double, ties to even.  A
    real that rounds to an infinity is left as it is. *)
Definition round_double (x : R) : R :=
  if Req_dec_T x 0 then 0
  else if Rlt_dec (Rabs x) dbl_round_limit
       then IZR (rne (x / ulp x)) * ulp x
       else x.

(** The product [x * y] of two doubles. *)
Definition float_mul (x y : R) : R := round_double (x * y).

(** Python [x ** y] on floats, for a positive base [x].  (On a NumPy
    scalar, as in the driver, the same power yields infinity instead of
    raising; the two agree whenever the result is finite.  A result
    below the smallest double is 0.0 in the code, within rounding of the
    real.) *)
Definition py_pow (x y : R) : result R :=
  let r := Rpower x y in
  if is_finite r then Ok r else Raise OverflowError.

(** Truncation toward zero. *)
Definition trunc (x : R) : Z :=
  if Rle_dec 0 x then Zfloor x else Zceil x.

(** Python [int(x)] on a float: truncation, [OverflowError] on infinity. *)
Definition py_int (x : R) : result Z :=
  if is_finite x then Ok (trunc x) else Raise OverflowError.

Definition int16_min : Z := -32768.
Definition int16_max : Z := 32767.

(** Reduction of an integer to the 16-bit two's complement range. *)
Definition wrap16 (z : Z) : Z := ((z + 32768) mod 65536 - 32768)%Z.

(** [np.int16(x)] on a float: the C cast, which truncates toward zero
    and keeps the low 16 bits of the truncated value (for a truncated
    value within 32 bits; the cast of a larger one depends on the
    platform). *)
Definition np_int16 (x : R) : Z := wrap16 (trunc x).

(** [np.linspace(start, stop, num, endpoint)]. *)
Definition linspace (start stop : R) (num : Z) (endpoint : bool)
    : result (list R) :=
  if (num <? 0)%Z then Raise ValueError
  else
    let div := if endpoint then (num - 1)%Z else num in
    let delta := stop - start in
    let y := map IZR (seqZ 0 num) in
    let y :=
      if (0 <? div)%Z then
        let step := delta / IZR div in
        if Req_dec_T step 0
        then map (fun v => v / IZR div * delta) y
        else map (fun v => v * step) y
      else map (fun v => v * delta) y in
    let y := map (fun v => v + start) y in
    Ok (if endpoint && (1 <? num)%Z
        then <[Z.to_nat (num - 1) := stop]> y
        else y).

(** ** The conversions *)

(** The product [440.0 * p] never raises: where it leaves the double
    range the code returns an infinity, for which the real stands. *)
Definition midi_to_freq (midi_note : Z) : result R :=
  let* d := float_of_int (midi_note - 69) in
  let* p := py_pow 2 (d / 12) in
  Ok (440 * p).

Definition db_to_amp (db : R) : result R :=
  py_pow 10 (db / 20).

(** ** The synthesizer *)

(** The sample times [t] of [generate_sine_wave]. *)
Definition sample_times (sample_rate : Z) (duration : R) : result (list R) :=
  let* sr := float_of_int sample_rate in
  let* num := py_int (float_mul sr duration) in
  linspace 0 duration num false.

(** The array [sine_wave], one mono sample per sample time. *)
Definition sine_wave (frequency amplitude : R) (t : list R) : list R :=
  map (fun ti => amplitude * sin (2 * PI * frequency * ti)) t.

(** The array [sine_wave_int].  The samples are truncated from the real
    values; where a real value is within rounding of an integer the
    sample of the code, truncated from a double, can be the neighbouring
    integer. *)
Definition sine_wave_int (wave : list R) : list Z :=
  map (fun s => np_int16 (s * 32767)) wave.

(** [np.column_stack((a, a)).flatten()]. *)
Fixpoint stereo (a : list Z) : list Z :=
  match a with
  | [] => []
  | v :: a' => v :: v :: stereo a'
  end.

Definition generate_sine_wave (sample_rate : Z) (duration frequency amplitude : R)
    : result (list Z) :=
  let* t := sample_times sample_rate duration in
  Ok (stereo (sine_wave_int (sine_wave frequency amplitude t))).

(** ** The WAV writer *)

Local Open Scope Z_scope.

Definition byte_of_Z (z : Z) : byte :=
  match Byte.of_N (Z.to_N (z mod 256)) with
  | Some b => b
  | None => x00
  end.

(** [struct.pack('<h', val)]: two bytes, two's complement, low byte first. *)
Definition pack_h (val : Z) : result (list byte) :=
  if (int16_min <=? val) && (val <=? int16_max)
  then Ok [byte_of_Z val; byte_of_Z (val / 256)]
  else Raise StructError.

(** [struct.pack('<H', v)] and [struct.pack('<L', v)]. *)
Definition pack_H (v : Z) : result (list byte) :=
  if (0 <=? v) && (v <? 2 ^ 16)
  then Ok [byte_of_Z v; byte_of_Z (v / 256)]
  else Raise StructError.

Definition pack_L (v : Z) : result (list byte) :=
  if (0 <=? v) && (v <? 2 ^ 32)
  then Ok [byte_of_Z v; byte_of_Z (v / 2 ^ 8);
           byte_of_Z (v / 2 ^ 16); byte_of_Z (v / 2 ^ 24)]
  else Raise StructError.

Definition bytes_of_string (s : string) : list byte :=
  map byte_of_ascii (list_ascii_of_string s).

(** The header the [wave] module writes for PCM data of [datalength]
    bytes: RIFF size, format chunk, then the size of the data chunk. *)
Definition wav_header (nchannels sampwidth framerate datalength : Z)
    : result (list byte) :=
  let* riff_size := pack_L (36 + datalength) in
  let* fmt_size := pack_L 16 in
  let* fmt_tag := pack_H 1 in
  let* channels := pack_H nchannels in
  let* rate := pack_L framerate in
  let* byte_rate := pack_L (nchannels * framerate * sampwidth) in
  let* block_align := pack_H (nchannels * sampwidth) in
  let* bits := pack_H (sampwidth * 8) in
  let* data_size := pack_L datalength in
  Ok (bytes_of_string "RIFF" ++ riff_size ++ bytes_of_string "WAVE"
      ++ bytes_of_string "fmt " ++ fmt_size ++ fmt_tag ++ channels ++ rate
      ++ byte_rate ++ block_align ++ bits
      ++ bytes_of_string "data" ++ data_size).

(** The bytes of the file [save_wav_file] leaves at its path. *)
Definition wav_file (sample_rate : Z) (data : list Z) : result (list byte) :=
  if sample_rate <=? 0 then Raise WaveError
  else
    let* frames := map_result pack_h data in
    let wav_data := concat frames in
    let* header := wav_header 2 2 sample_rate (Z.of_nat (length wav_data)) in
    Ok (header ++ wav_data).

(** [save_wav_file], for a path that can be opened for writing. *)
Definition save_wav_file (filename : string) (sample_rate : Z) (data : list Z)
    (fs : gmap string (list byte)) : result (gmap string (list byte)) :=
  let* content := wav_file sample_rate data in
  Ok (<[filename := content]> fs).

(** ** The environment and the default output directory *)

Record environ : Set := {
  platform_system : string;      (* platform.system() *)
  home_dir : option string       (* the home directory, when known *)
}.

Definition is_windows (env : environ) : bool :=
  String.eqb (platform_system env) "Windows".

Fixpoint rstrip_slash (s : string) : string :=
  match s with
  | EmptyString => EmptyString
  | String c s' =>
      match rstrip_slash s' with
      | EmptyString => if Ascii.eqb c "/" then EmptyString else String c EmptyString
      | r => String c r
      end
  end.

(** [os.path.expanduser] of [posixpath], for the current user. *)
Definition expanduser (env : environ) (path : string) : string :=
  match path with
  | String "~" rest =>
      if String.eqb rest "" || String.prefix "/" rest then
        match home_dir env with
        | Some h =>
            let r := (rstrip_slash h ++ rest)%string in
            if String.eqb r "" then "/"%string else r
        | None => path
        end
      else path
  | _ => path
  end.

Definition get_default_output_dir (env : environ) : string :=
  if is_windows env
  then "C:\\SoundBanks\\IthacaPlayer\\instrument"%string
  else expanduser env "~/Soundbank/IthacaPlayer/instrument".

Fixpoint last_char (s : string) : option ascii :=
  match s with
  | EmptyString => None
  | String c EmptyString => Some c
  | String _ s' => last_char s'
  end.

(** A drive alone: a letter and a colon. *)
Definition is_bare_drive (dir : string) : bool :=
  match dir with
  | String _ (String ":" EmptyString) => true
  | _ => false
  end.

(** [os.path.join(dir, file)] for a relative [file] without a drive.
    [ntpath] puts no separator after a separator and after a bare drive;
    UNC and device prefixes are not distinguished. *)
Definition path_join (env : environ) (dir file : string) : string :=
  match last_char dir with
  | None => file
  | Some c =>
      if is_windows env then
        if Ascii.eqb c "\" || Ascii.eqb c "/" || is_bare_drive dir
        then (dir ++ file)%string
        else (dir ++ "\" ++ file)%string
      else
        if Ascii.eqb c "/"
        then (dir ++ file)%string
        else (dir ++ "/" ++ file)%string
  end.

(** ** File names *)

(** The decimal digits of [|z|]. *)
Definition digits (z : Z) : string :=
  NilZero.string_of_uint (N.to_uint (Z.abs_N z)).

Fixpoint zeros (n : nat) : string :=
  match n with
  | O => EmptyString
  | S n' => String "0" (zeros n')
  end.

(** [f'{z}'], that is [str(z)]. *)
Definition str (z : Z) : string :=
  if z <? 0 then ("-" ++ digits z)%string else digits z.

(** [f'{z:03d}']: sign-aware zero padding to width 3. *)
Definition format_03d (z : Z) : string :=
  let d := digits z in
  if z <? 0
  then ("-" ++ zeros (2 - String.length d) ++ d)%string
  else (zeros (3 - String.length d) ++ d)%string.

Definition rate_tags : gmap Z string :=
  {[ 44100 := "44"%string; 48000 := "48"%string ]}.

(** [d[k]] on a dict and [a[i]] on an array. *)
Definition dict_get {V : Type} (d : gmap Z V) (k : Z) : result V :=
  match d !! k with
  | Some v => Ok v
  | None => Raise KeyError
  end.

Definition array_get {V : Type} (a : list V) (i : Z) : result V :=
  let j := if i <? 0 then i + Z.of_nat (length a) else i in
  if j <? 0 then Raise IndexError
  else match a !! Z.to_nat j with
       | Some v => Ok v
       | None => Raise IndexError
       end.

Definition note_str (midi_note : Z) : string :=
  ("m" ++ format_03d midi_note)%string.

Definition filename (midi_note vel : Z) (tag : string) : string :=
  (note_str midi_note ++ "-vel" ++ str vel ++ "-f" ++ tag ++ ".wav")%string.

(** ** The driver *)

Definition sample_rates : list Z := [44100; 48000].

Definition duration : R := 5%R.

(** [output_dir = args.output_dir if args.output_dir else get_default_output_dir()] *)
Definition resolve_output_dir (env : environ) (arg : option string) : string :=
  match arg with
  | Some d => if String.eqb d "" then get_default_output_dir env else d
  | None => get_default_output_dir env
  end.

(** The body of the innermost loop. *)
Definition write_sample (env : environ) (output_dir : string)
    (midi_note vel : Z) (freq amp : R) (sample_rate : Z)
    (fs : gmap string (list byte)) : result (gmap string (list byte)) :=
  let* data := generate_sine_wave sample_rate duration freq amp in
  let* tag := dict_get rate_tags sample_rate in
  let filepath := path_join env output_dir (filename midi_note vel tag) in
  save_wav_file filepath sample_rate data fs.

(** [main]: the three nested loops over the file system.  The progress
    lines printed on the way are not part of the state. *)
Definition main (env : environ) (arg : option string)
    (fs : gmap string (list byte)) : result (gmap string (list byte)) :=
  let output_dir := resolve_output_dir env arg in
  let* db_levels := linspace (-30) (-6) 8 true in
  for_each (seqZ 21 88) (fun midi_note fs =>
    let* freq := midi_to_freq midi_note in
    for_each (seqZ 0 8) (fun vel fs =>
      let* db := array_get db_levels vel in
      let* amp := db_to_amp db in
      for_each sample_rates (fun sample_rate fs =>
        write_sample env output_dir midi_note vel freq amp sample_rate fs)
      fs)
    fs)
  fs.

(* ================================================================== *)
(** * Part II: vocabulary of the specification *)
(* ================================================================== *)

Local Open Scope R_scope.

(** A value within the range of finite doubles. *)
Definition in_double_range (x : R) : Prop := Rabs x < dbl_limit.

(** Powers of two with an integer exponent. *)
Definition pow2 (e : Z) : R := Rpower 2 (IZR e).

(** The number of sample times: [int(sample_rate * duration)]. *)
Definition sample_count (sample_rate : Z) (duration : R) : Z :=
  trunc (float_mul (IZR sample_rate) duration).

(** The doubles nearest to 0.3 and to 1/3. *)
Definition three_tenths : R := 5404319552844595 / 18014398509481984.
Definition one_third : R := 6004799503160661 / 18014398509481984.

(** The sample times as a closed formula: [n] points [i * (dur / n)]. *)
Definition time_grid (dur : R) (n : Z) : list R :=
  map (fun i => IZR i * (dur / IZR n)) (seqZ 0 n).

(** The level of a velocity tier, as [np.linspace(-30, -6, 8)] lays it out. *)
Definition db_level (vel : Z) : R :=
  if (vel =? 7)%Z then -6 else IZR vel * ((-6 - -30) / 7) + -30.

Definition freq_of (note : Z) : R := 440 * Rpower 2 (IZR (note - 69) / 12).

Definition amp_of (vel : Z) : R := Rpower 10 (db_level vel / 20).

Definition get_ok {A : Type} (d : A) (r : result A) : A :=
  match r with
  | Ok a => a
  | Raise _ => d
  end.

(** The iterations of the three loops, in order. *)
Definition triples : list (Z * Z * Z) :=
  note ← seqZ 21 88; vel ← seqZ 0 8; sr ← sample_rates; [(note, vel, sr)].

Definition in_bank (tr : Z * Z * Z) : Prop :=
  let '(note, vel, sr) := tr in
  (21 <= note <= 108)%Z /\ (0 <= vel <= 7)%Z /\ (sr = 44100 \/ sr = 48000)%Z.

Definition tag_of (sample_rate : Z) : string :=
  default ""%string (rate_tags !! sample_rate).

Definition file_name (tr : Z * Z * Z) : string :=
  let '(note, vel, sr) := tr in filename note vel (tag_of sr).

Definition file_path (env : environ) (arg : option string) (tr : Z * Z * Z)
    : string :=
  path_join env (resolve_output_dir env arg) (file_name tr).

(** The samples and the file content computed in one iteration. *)
Definition sample_data (tr : Z * Z * Z) : result (list Z) :=
  let '(note, vel, sr) := tr in
  let* db_levels := linspace (-30) (-6) 8 true in
  let* freq := midi_to_freq note in
  let* db := array_get db_levels vel in
  let* amp := db_to_amp db in
  generate_sine_wave sr duration freq amp.

Definition sample_file (tr : Z * Z * Z) : result (list byte) :=
  let* data := sample_data tr in
  wav_file (snd tr) data.

(** A sequence of writes [key x := val x], one per element of a list. *)
Definition writes {A : Type} (key : A -> string) (val : A -> list byte)
    (l : list A) (fs : gmap string (list byte)) : gmap string (list byte) :=
  foldl (fun fs x => <[key x := val x]> fs) fs l.

(** The file system after every iteration has written its file. *)
Definition write_all (env : environ) (arg : option string)
    (fs : gmap string (list byte)) : gmap string (list byte) :=
  writes (file_path env arg) (fun tr => get_ok [] (sample_file tr)) triples fs.

(** Reading a file name back. *)
Definition digit_of (c : ascii) : option Z :=
  let n := (Z.of_N (N_of_ascii c) - 48)%Z in
  if (0 <=? n)%Z && (n <=? 9)%Z then Some n else None.

Fixpoint strip_prefix (p s : string) : option string :=
  match p, s with
  | EmptyString, _ => Some s
  | String a p', String b s' => if Ascii.eqb a b then strip_prefix p' s' else None
  | String _ _, EmptyString => None
  end.

Definition rate_of_tag (tag : string) : option Z :=
  if String.eqb tag "44" then Some 44100%Z
  else if String.eqb tag "48" then Some 48000%Z
  else None.

Definition parse_filename (s : string) : option (Z * Z * Z) :=
  match strip_prefix "m" s with
  | Some (String a (String b (String c s1))) =>
      match digit_of a, digit_of b, digit_of c, strip_prefix "-vel" s1 with
      | Some da, Some db, Some dc, Some (String v s2) =>
          match digit_of v, strip_prefix "-f" s2 with
          | Some dv, Some (String t1 (String t2 s3)) =>
              match rate_of_tag (String t1 (String t2 EmptyString)) with
              | Some sr =>
                  if String.eqb s3 ".wav"
                  then Some ((100 * da + 10 * db + dc)%Z, dv, sr)
                  else None
              | None => None
              end
          | _, _ => None
          end
      | _, _, _, _ => None
      end
  | _ => None
  end.

(** The components of a path, split at a separator; empty components
    (repeated separators) do not count. *)
Fixpoint split_on (sep : ascii) (s cur : string) : list string :=
  match s with
  | EmptyString => [cur]
  | String c s' =>
      if Ascii.eqb c sep then cur :: split_on sep s' EmptyString
      else split_on sep s' (cur ++ String c EmptyString)%string
  end.

Definition path_components (sep : ascii) (s : string) : list string :=
  filter (fun x => x <> EmptyString) (split_on sep s EmptyString).

(** ** Reading a WAV file back *)

Definition Z_of_byte (b : byte) : Z := Z.of_N (Byte.to_N b).

(** [struct.unpack] for ['<H'], ['<h'] and ['<L']. *)
Definition unpack_H (bs : list byte) : option Z :=
  match bs with
  | [b0; b1] => Some (Z_of_byte b0 + 256 * Z_of_byte b1)%Z
  | _ => None
  end.

Definition unpack_h (bs : list byte) : option Z :=
  match unpack_H bs with
  | Some u => Some (if (u <? 32768)%Z then u else (u - 65536)%Z)
  | None => None
  end.

Definition unpack_L (bs : list byte) : option Z :=
  match bs with
  | [b0; b1; b2; b3] =>
      Some (Z_of_byte b0 + 2 ^ 8 * Z_of_byte b1
            + 2 ^ 16 * Z_of_byte b2 + 2 ^ 24 * Z_of_byte b3)%Z
  | _ => None
  end.

(** A sequence of little-endian 16-bit samples. *)
Fixpoint unpack_frames (bs : list byte) : option (list Z) :=
  match bs with
  | [] => Some []
  | b0 :: b1 :: rest =>
      match unpack_h [b0; b1], unpack_frames rest with
      | Some v, Some vs => Some (v :: vs)
      | _, _ => None
      end
  | _ => None
  end.

Definition is_magic (s : string) (bs : list byte) : bool :=
  bool_decide (map Byte.to_N bs = map Byte.to_N (bytes_of_string s)).

Definition take_magic (s : string) (bs : list byte) : option (list byte) :=
  if is_magic s (take 4 bs) then Some (drop 4 bs) else None.

Definition take_L (bs : list byte) : option (Z * list byte) :=
  match unpack_L (take 4 bs) with
  | Some v => Some (v, drop 4 bs)
  | None => None
  end.

Definition take_H (bs : list byte) : option (Z * list byte) :=
  match unpack_H (take 2 bs) with
  | Some v => Some (v, drop 2 bs)
  | None => None
  end.

Record wav_info : Set := {
  wav_channels : Z;
  wav_sampwidth : Z;
  wav_framerate : Z;
  wav_samples : list Z
}.

(** A reader of 16-bit PCM files with the canonical 44-byte header.  It
    checks every size field against the bytes that follow and, as the
    [wave] module does, reads the data in whole frames of one sample per
    channel: samples after the last whole frame are dropped. *)
Definition read_wav (bs : list byte) : option wav_info :=
  bs ← take_magic "RIFF" bs;
  '(riff_size, bs) ← take_L bs;
  bs ← take_magic "WAVE" bs;
  bs ← take_magic "fmt " bs;
  '(fmt_size, bs) ← take_L bs;
  '(fmt_tag, bs) ← take_H bs;
  '(channels, bs) ← take_H bs;
  '(rate, bs) ← take_L bs;
  '(byte_rate, bs) ← take_L bs;
  '(block_align, bs) ← take_H bs;
  '(bits, bs) ← take_H bs;
  bs ← take_magic "data" bs;
  '(data_size, bs) ← take_L bs;
  if ((1 <=? channels) && (fmt_size =? 16) && (fmt_tag =? 1) && (bits =? 16)
      && (block_align =? channels * 2) && (byte_rate =? rate * block_align)
      && (data_size =? Z.of_nat (length bs))
      && (riff_size =? 36 + data_size))%Z
  then samples ← unpack_frames bs;
       let nframes := (data_size / block_align)%Z in
       Some {| wav_channels := channels; wav_sampwidth := 2;
               wav_framerate := rate;
               wav_samples := take (Z.to_nat (nframes * channels)) samples |}
  else None.

(** The whole stereo frames of a sequence of samples. *)
Definition whole_frames (data : list Z) : list Z :=
  take (Z.to_nat (Z.of_nat (length data) / 2 * 2)) data.

(** ** Order of names *)

(** The order of the loops: by note, then tier, then rate. *)
Definition triple_ltb (t1 t2 : Z * Z * Z) : bool :=
  let '(n1, v1, s1) := t1 in
  let '(n2, v2, s2) := t2 in
  ((n1 <? n2) || (n1 =? n2) && ((v1 <? v2) || (v1 =? v2) && (s1 <? s2)))%Z.

(** Both orders at once, on triples and on their names. *)
Definition name_before (t1 t2 : Z * Z * Z) : Prop :=
  triple_ltb t1 t2 = true /\ String.ltb (file_name t1) (file_name t2) = true.

(** Every name has 17 characters and comes before the next one. *)
Fixpoint names_ordered (l : list (Z * Z * Z)) : bool :=
  match l with
  | [] => true
  | t1 :: l' =>
      (String.length (file_name t1) =? 17)%nat
      && match l' with
         | [] => true
         | t2 :: _ =>
             triple_ltb t1 t2 && String.ltb (file_name t1) (file_name t2)
         end
      && names_ordered l'
  end.

(** A sequence of 16-bit samples. *)
Definition int16_list (data : list Z) : Prop :=
  Forall (fun v => int16_min <= v <= int16_max)%Z data.

(* ================================================================== *)
(** * Part III: properties *)
(* ================================================================== *)

(** ** The double range and the partial operations *)

Lemma dbl_limit_IZR : dbl_limit = IZR (2 ^ 1024).
Proof. unfold dbl_limit. rewrite pow_IZR. f_equal. Qed.

Lemma Rpower_pos x y : 0 < Rpower x y.
Proof. unfold Rpower. apply exp_pos. Qed.

Lemma Rpower_nat x (z : Z) :
  0 < x -> (0 <= z)%Z -> Rpower x (IZR z) = x ^ Z.to_nat z.
Proof.
  intros Hx Hz. rewrite <- (Z2Nat.id z) at 1 by exact Hz.
  rewrite <- INR_IZR_INZ. apply Rpower_pow. exact Hx.
Qed.

Lemma dbl_limit_Rpower : dbl_limit = Rpower 2 1024.
Proof. rewrite Rpower_nat by (lra || lia). reflexivity. Qed.

Lemma is_finite_true x : in_double_range x -> is_finite x = true.
Proof.
  unfold in_double_range, is_finite. intros H.
  destruct (Rlt_dec _ _); [reflexivity | contradiction].
Qed.

Lemma is_finite_false x : dbl_limit <= Rabs x -> is_finite x = false.
Proof.
  intros H. unfold is_finite. destruct (Rlt_dec _ _); [lra | reflexivity].
Qed.

Lemma in_double_range_IZR z : (Z.abs z < 2 ^ 1024)%Z -> in_double_range (IZR z).
Proof.
  intros H. unfold in_double_range.
  rewrite dbl_limit_IZR, <- abs_IZR. apply IZR_lt. exact H.
Qed.

Lemma in_double_range_small x (z : Z) :
  Rabs x < IZR z -> (z <= 2 ^ 1024)%Z -> in_double_range x.
Proof.
  intros Hx Hz. unfold in_double_range. rewrite dbl_limit_IZR.
  apply Rlt_le_trans with (IZR z); [exact Hx | apply IZR_le; exact Hz].
Qed.

Lemma float_of_int_ok z : (Z.abs z < 2 ^ 1024)%Z -> float_of_int z = Ok (IZR z).
Proof.
  intros H. unfold float_of_int.
  rewrite is_finite_true by (apply in_double_range_IZR; exact H). reflexivity.
Qed.

Lemma py_pow_ok x y : Rpower x y < dbl_limit -> py_pow x y = Ok (Rpower x y).
Proof.
  intros H. unfold py_pow. cbv zeta. rewrite is_finite_true; [reflexivity |].
  unfold in_double_range.
  rewrite Rabs_pos_eq; [exact H | left; apply Rpower_pos].
Qed.

Lemma py_pow_overflow x y :
  dbl_limit <= Rpower x y -> py_pow x y = Raise OverflowError.
Proof.
  intros H. unfold py_pow. cbv zeta. rewrite is_finite_false; [reflexivity |].
  rewrite Rabs_pos_eq; [exact H | left; apply Rpower_pos].
Qed.

Lemma py_int_ok x : in_double_range x -> py_int x = Ok (trunc x).
Proof. intros H. unfold py_int. rewrite is_finite_true by exact H. reflexivity. Qed.

(** ** Rounding to a double *)

Lemma rne_cases y : rne y = Zfloor y \/ (rne y = (Zfloor y + 1)%Z /\ 1 / 2 <= y - IZR (Zfloor y)).
Proof.
  unfold rne. cbv zeta.
  destruct (Rlt_dec _ _) as [H | H]; [left; reflexivity |].
  destruct (Rlt_dec _ _) as [H' | H']; [right; split; [reflexivity | lra] |].
  destruct (Z.even _); [left; reflexivity | right; split; [reflexivity | lra]].
Qed.

Lemma rne_IZR m : rne (IZR m) = m.
Proof.
  unfold rne. cbv zeta. rewrite ZfloorZ.
  destruct (Rlt_dec _ _) as [H | H]; [reflexivity | exfalso; lra].
Qed.

Lemma rne_ge (k : Z) y : IZR k <= y -> (k <= rne y)%Z.
Proof.
  intros H. pose proof (Zfloor_lub k y H).
  destruct (rne_cases y) as [-> | [-> _]]; lia.
Qed.

Lemma rne_le (k : Z) y : y <= IZR k -> (rne y <= k)%Z.
Proof.
  intros H. pose proof (Zfloor_bound y) as [Hb _].
  destruct (rne_cases y) as [-> | [-> Hd]].
  - apply le_IZR. lra.
  - assert (IZR (Zfloor y) < IZR k) as Hlt by lra.
    apply lt_IZR in Hlt. lia.
Qed.

Lemma rne_error y : Rabs (IZR (rne y) - y) <= 1 / 2.
Proof.
  pose proof (Zfloor_bound y) as [Hb Hb'].
  unfold rne. cbv zeta.
  destruct (Rlt_dec _ _) as [H | H].
  - rewrite Rabs_left1 by lra. lra.
  - destruct (Rlt_dec _ _) as [H' | H'].
    + rewrite plus_IZR. rewrite Rabs_pos_eq by lra. lra.
    + destruct (Z.even _).
      * rewrite Rabs_left1 by lra. lra.
      * rewrite plus_IZR. rewrite Rabs_pos_eq by lra. lra.
Qed.

Lemma pow2_pos e : 0 < pow2 e.
Proof. unfold pow2, Rpower. apply exp_pos. Qed.

Lemma pow2_add a b : pow2 (a + b) = pow2 a * pow2 b.
Proof. unfold pow2. rewrite plus_IZR. apply Rpower_plus. Qed.

Lemma pow2_le a b : (a <= b)%Z -> pow2 a <= pow2 b.
Proof. intros H. apply Rle_Rpower; [lra | apply IZR_le; exact H]. Qed.

Lemma pow2_lt a b : (a < b)%Z -> pow2 a < pow2 b.
Proof. intros H. apply Rpower_lt; [lra | apply IZR_lt; exact H]. Qed.

Lemma pow2_lt_inv a b : pow2 a < pow2 b -> (a < b)%Z.
Proof.
  intros H. destruct (Z_lt_le_dec a b) as [Hlt | Hle]; [exact Hlt |].
  pose proof (pow2_le _ _ Hle). lra.
Qed.

Lemma pow2_nat e : (0 <= e)%Z -> pow2 e = IZR (2 ^ e).
Proof.
  intros H. unfold pow2. rewrite <- (Z2Nat.id e) at 1 by exact H.
  rewrite <- INR_IZR_INZ, Rpower_pow by lra.
  rewrite <- (Z2Nat.id e) at 2 by exact H.
  rewrite <- pow_IZR. reflexivity.
Qed.

Lemma pow2_0 : pow2 0 = 1.
Proof. unfold pow2. apply Rpower_O. lra. Qed.

Lemma ln2_pos : 0 < ln 2.
Proof. rewrite <- ln_1. apply ln_increasing; lra. Qed.

Lemma binade_spec x :
  x <> 0 -> pow2 (binade x) <= Rabs x < pow2 (binade x + 1).
Proof.
  intros Hx. assert (0 < Rabs x) as Hpos by (apply Rabs_pos_lt; exact Hx).
  pose proof ln2_pos as Hl.
  pose proof (Zfloor_bound (ln (Rabs x) / ln 2)) as [Hlo Hhi].
  fold (binade x) in Hlo, Hhi.
  assert (ln (Rabs x) = ln (Rabs x) / ln 2 * ln 2) as E by (field; lra).
  assert (Rabs x = exp (ln (Rabs x) / ln 2 * ln 2)) as Ex
    by (rewrite <- E; symmetry; apply exp_ln; exact Hpos).
  unfold pow2, Rpower. rewrite plus_IZR. rewrite Ex at 1 2. split.
  - destruct (Rle_lt_or_eq_dec _ _ Hlo) as [Hlt | Heq].
    + left. apply exp_increasing. apply Rmult_lt_compat_r; assumption.
    + right. rewrite Heq. reflexivity.
  - apply exp_increasing. apply Rmult_lt_compat_r; assumption.
Qed.

Lemma ulp_pos x : 0 < ulp x.
Proof. apply pow2_pos. Qed.

Lemma round_double_0 : round_double 0 = 0.
Proof.
  unfold round_double. destruct (Req_dec_T 0 0); [reflexivity | contradiction].
Qed.

Lemma round_double_nonneg x : 0 <= x -> 0 <= round_double x.
Proof.
  intros H. unfold round_double.
  destruct (Req_dec_T x 0); [lra |].
  destruct (Rlt_dec _ _); [| exact H].
  pose proof (ulp_pos x) as Hu.
  apply Rmult_le_pos; [| lra]. apply IZR_le. apply rne_ge.
  apply Rmult_le_pos; [exact H |]. left. apply Rinv_0_lt_compat. exact Hu.
Qed.

Lemma round_double_nonpos x : x <= 0 -> round_double x <= 0.
Proof.
  intros H. unfold round_double.
  destruct (Req_dec_T x 0); [lra |].
  destruct (Rlt_dec _ _); [| exact H].
  pose proof (ulp_pos x) as Hu.
  assert (IZR (rne (x / ulp x)) <= IZR 0) as Hr.
  { apply IZR_le. apply rne_le. unfold Rdiv.
    assert (0 < / ulp x) by (apply Rinv_0_lt_compat; exact Hu). nra. }
  nra.
Qed.

(** Rounding does not cross a power of two. *)
Lemma round_double_ge_pow2 x (k : Z) :
  (-1022 <= k)%Z -> pow2 k <= x -> pow2 k <= round_double x.
Proof.
  intros Hk H. pose proof (pow2_pos k) as Hkp.
  unfold round_double.
  destruct (Req_dec_T x 0) as [| Hx]; [lra |].
  destruct (Rlt_dec _ _); [| exact H].
  destruct (binade_spec x Hx) as [Hlo Hhi].
  rewrite Rabs_pos_eq in Hlo, Hhi by lra.
  assert (k <= binade x)%Z as Hb.
  { assert (k < binade x + 1)%Z; [| lia]. apply pow2_lt_inv. lra. }
  apply Rle_trans with (pow2 (binade x)); [apply pow2_le; exact Hb |].
  unfold ulp. rewrite Z.max_l by lia.
  set (u := (binade x - 52)%Z).
  pose proof (pow2_pos u) as Hu.
  assert (pow2 (binade x) = IZR (2 ^ 52) * pow2 u) as Ek.
  { rewrite <- pow2_nat by lia. rewrite <- pow2_add. f_equal. unfold u. lia. }
  fold (pow2 u). rewrite Ek. apply Rmult_le_compat_r; [lra |].
  apply IZR_le. apply rne_ge.
  apply Rmult_le_reg_r with (pow2 u); [exact Hu |].
  unfold Rdiv. rewrite Rmult_assoc, Rinv_l by lra. rewrite <- Ek. lra.
Qed.

Lemma round_double_le_pow2 x (k : Z) :
  (-1022 <= k)%Z -> x <= - pow2 k -> round_double x <= - pow2 k.
Proof.
  intros Hk H. pose proof (pow2_pos k) as Hkp.
  unfold round_double.
  destruct (Req_dec_T x 0) as [| Hx]; [lra |].
  destruct (Rlt_dec _ _); [| exact H].
  destruct (binade_spec x Hx) as [Hlo Hhi].
  rewrite Rabs_left in Hlo, Hhi by lra.
  assert (k <= binade x)%Z as Hb.
  { assert (k < binade x + 1)%Z; [| lia]. apply pow2_lt_inv. lra. }
  apply Rle_trans with (- pow2 (binade x));
    [| apply Ropp_le_contravar, pow2_le; exact Hb].
  unfold ulp. rewrite Z.max_l by lia.
  set (u := (binade x - 52)%Z).
  pose proof (pow2_pos u) as Hu.
  assert (pow2 (binade x) = IZR (2 ^ 52) * pow2 u) as Ek.
  { rewrite <- pow2_nat by lia. rewrite <- pow2_add. f_equal. unfold u. lia. }
  fold (pow2 u). rewrite Ek.
  rewrite Ropp_mult_distr_l, <- opp_IZR.
  apply Rmult_le_compat_r; [lra |].
  apply IZR_le. apply rne_le.
  apply Rmult_le_reg_r with (pow2 u); [exact Hu |].
  unfold Rdiv. rewrite Rmult_assoc, Rinv_l by lra.
  rewrite opp_IZR, <- Ropp_mult_distr_l, <- Ek. lra.
Qed.

Lemma round_double_ge_1 x : 1 <= x -> 1 <= round_double x.
Proof.
  intros H. rewrite <- pow2_0. apply round_double_ge_pow2; [lia |].
  rewrite pow2_0. exact H.
Qed.

Lemma round_double_le_m1 x : x <= -1 -> round_double x <= -1.
Proof.
  intros H. replace (-1) with (- pow2 0) by (rewrite pow2_0; lra).
  apply round_double_le_pow2; [lia |]. rewrite pow2_0. lra.
Qed.

Lemma dbl_limit_pow2 : dbl_limit = pow2 1024.
Proof. rewrite pow2_nat by lia. unfold dbl_limit. rewrite pow_IZR. f_equal. Qed.

Lemma pow_970_pow2 : 2 ^ 970 = pow2 970.
Proof. rewrite pow2_nat by lia. rewrite pow_IZR. f_equal. Qed.

(** The error of rounding is at most half a unit in the last place. *)
Lemma round_double_error x :
  Rabs x < dbl_round_limit -> Rabs (round_double x - x) <= ulp x / 2.
Proof.
  intros H. pose proof (ulp_pos x) as Hu. unfold round_double.
  destruct (Req_dec_T x 0) as [-> | Hx].
  - rewrite Rminus_0_r, Rabs_R0. lra.
  - destruct (Rlt_dec _ _); [| contradiction].
    replace (IZR (rne (x / ulp x)) * ulp x - x)
      with ((IZR (rne (x / ulp x)) - x / ulp x) * ulp x) by (field; lra).
    rewrite Rabs_mult, (Rabs_pos_eq (ulp x)) by lra.
    pose proof (rne_error (x / ulp x)). nra.
Qed.

Lemma round_double_finite x :
  in_double_range x -> in_double_range (round_double x).
Proof.
  unfold in_double_range. intros H.
  destruct (Req_dec_T x 0) as [-> | Hx]; [rewrite round_double_0; exact H |].
  destruct (Rlt_dec (Rabs x) dbl_round_limit) as [Hlt | Hge].
  - pose proof (round_double_error x Hlt) as He.
    assert (ulp x <= pow2 971) as Hu.
    { destruct (binade_spec x Hx) as [Hlo _].
      assert (binade x < 1024)%Z.
      { apply pow2_lt_inv. rewrite <- dbl_limit_pow2. lra. }
      apply pow2_le. lia. }
    assert (pow2 971 = 2 * 2 ^ 970) as E.
    { rewrite pow_970_pow2. change 971%Z with (1 + 970)%Z.
      rewrite pow2_add. f_equal. unfold pow2. apply Rpower_1. lra. }
    unfold dbl_round_limit in Hlt. fold dbl_limit in Hlt.
    replace (round_double x) with (x + (round_double x - x)) by ring.
    eapply Rle_lt_trans; [apply Rabs_triang |]. lra.
  - unfold round_double. destruct (Req_dec_T x 0); [contradiction |].
    destruct (Rlt_dec _ _); [contradiction | exact H].
Qed.

(** A value with at most 53 significant bits is a double. *)
Lemma round_double_exact (m e : Z) :
  (Z.abs m < 2 ^ 53)%Z -> (-1074 <= e)%Z ->
  round_double (IZR m * pow2 e) = IZR m * pow2 e.
Proof.
  intros Hm He. pose proof (pow2_pos e) as Hep.
  unfold round_double.
  destruct (Req_dec_T _ _) as [E0 | Hx]; [symmetry; exact E0 |].
  destruct (Rlt_dec _ _); [| reflexivity].
  destruct (binade_spec _ Hx) as [Hlo _].
  set (x := IZR m * pow2 e) in *.
  assert (Rabs x < pow2 (53 + e)) as Hlt.
  { unfold x. rewrite Rabs_mult, (Rabs_pos_eq (pow2 e)) by lra.
    rewrite pow2_add. apply Rmult_lt_compat_r; [exact Hep |].
    rewrite pow2_nat by lia. rewrite <- abs_IZR. apply IZR_lt. exact Hm. }
  assert (binade x < 53 + e)%Z as Hb by (apply pow2_lt_inv; lra).
  unfold ulp. set (u := (Z.max (binade x) (-1022) - 52)%Z).
  assert (u <= e)%Z as Hu by (unfold u; lia).
  pose proof (pow2_pos u) as Hup. fold (pow2 u).
  assert (pow2 e = IZR (2 ^ (e - u)) * pow2 u) as Ee.
  { rewrite <- pow2_nat by lia. rewrite <- pow2_add. f_equal. lia. }
  assert (x / pow2 u = IZR (m * 2 ^ (e - u))) as Ey.
  { unfold x. rewrite Ee, mult_IZR. field. lra. }
  rewrite Ey, rne_IZR, mult_IZR. unfold x. rewrite Ee. ring.
Qed.

Lemma round_double_IZR z : (Z.abs z < 2 ^ 53)%Z -> round_double (IZR z) = IZR z.
Proof.
  intros H. rewrite <- (Rmult_1_r (IZR z)), <- pow2_0.
  apply round_double_exact; [exact H | lia].
Qed.

Lemma float_mul_IZR (a b : Z) :
  (Z.abs (a * b) < 2 ^ 53)%Z -> float_mul (IZR a) (IZR b) = IZR (a * b).
Proof.
  intros H. unfold float_mul. rewrite <- mult_IZR. apply round_double_IZR. exact H.
Qed.

Lemma binade_eq x (k : Z) : pow2 k <= Rabs x < pow2 (k + 1) -> binade x = k.
Proof.
  intros [Hlo Hhi]. pose proof (pow2_pos k) as Hk.
  assert (x <> 0) as Hx by (intros ->; rewrite Rabs_R0 in Hlo; lra).
  destruct (binade_spec x Hx) as [Blo Bhi].
  assert (k < binade x + 1)%Z by (apply pow2_lt_inv; lra).
  assert (binade x < k + 1)%Z by (apply pow2_lt_inv; lra).
  lia.
Qed.

Lemma pow2_neg e : pow2 (- e) = / pow2 e.
Proof. unfold pow2. rewrite opp_IZR. apply Rpower_Ropp. Qed.

(** Rounding in a known binade of the normal range. *)
Lemma round_double_at x (k : Z) :
  (-1022 <= k < 1024)%Z -> pow2 k <= Rabs x < pow2 (k + 1) ->
  Rabs x < dbl_round_limit ->
  round_double x = IZR (rne (x / pow2 (k - 52))) * pow2 (k - 52).
Proof.
  intros Hk Hb Hlim. pose proof (pow2_pos k) as Hkp.
  unfold round_double.
  destruct (Req_dec_T x 0) as [-> | Hx]; [rewrite Rabs_R0 in Hb; lra |].
  destruct (Rlt_dec _ _); [| contradiction].
  unfold ulp. rewrite (binade_eq x k Hb), Z.max_l by lia. reflexivity.
Qed.

Lemma rne_down y (f : Z) : IZR f <= y < IZR f + 1 / 2 -> rne y = f.
Proof.
  intros H. unfold rne. cbv zeta.
  rewrite (Zfloor_eq f y) by lra.
  destruct (Rlt_dec _ _); [reflexivity | lra].
Qed.

Lemma rne_up y (f : Z) : IZR f + 1 / 2 < y < IZR f + 1 -> rne y = (f + 1)%Z.
Proof.
  intros H. unfold rne. cbv zeta.
  rewrite (Zfloor_eq f y) by lra.
  destruct (Rlt_dec _ _); [lra |].
  destruct (Rlt_dec _ _); [reflexivity | lra].
Qed.

Lemma rne_tie (f : Z) :
  rne (IZR f + 1 / 2) = if Z.even f then f else (f + 1)%Z.
Proof.
  unfold rne. cbv zeta.
  rewrite (Zfloor_eq f (IZR f + 1 / 2)) by lra.
  destruct (Rlt_dec _ _); [lra |].
  destruct (Rlt_dec _ _); [lra | reflexivity].
Qed.

Lemma dbl_round_limit_large x : Rabs x < 2 ^ 53 -> Rabs x < dbl_round_limit.
Proof.
  intros H. apply Rlt_trans with (2 ^ 53); [exact H |].
  unfold dbl_round_limit. rewrite !pow_IZR, <- minus_IZR.
  apply IZR_lt. vm_compute. reflexivity.
Qed.

Lemma pow2_1 : pow2 1 = 2.
Proof. unfold pow2. apply Rpower_1. lra. Qed.

(** [10 * 0.3] is below 3 and rounds up to 3.0. *)
Lemma float_mul_three_tenths :
  10 * three_tenths < 3 /\ float_mul 10 three_tenths = 3.
Proof.
  unfold three_tenths. split; [lra |]. unfold float_mul.
  rewrite (round_double_at _ 1).
  - change (1 - 52)%Z with (- (51))%Z. rewrite pow2_neg, pow2_nat by lia.
    change (2 ^ 51)%Z with 2251799813685248%Z.
    rewrite (rne_up _ 6755399441055743) by lra.
    change (6755399441055743 + 1)%Z with 6755399441055744%Z. lra.
  - lia.
  - change (1 + 1)%Z with 2%Z. rewrite pow2_1, pow2_nat by lia.
    change (2 ^ 2)%Z with 4%Z. rewrite Rabs_pos_eq by lra. lra.
  - apply dbl_round_limit_large. rewrite Rabs_pos_eq by lra.
    rewrite pow_IZR. change (2 ^ Z.of_nat 53)%Z with 9007199254740992%Z. lra.
Qed.

(** [3 * (1/3)] lies halfway between two doubles and rounds to 1.0. *)
Lemma float_mul_one_third :
  3 * one_third < 1 /\ float_mul 3 one_third = 1.
Proof.
  unfold one_third. split; [lra |]. unfold float_mul.
  rewrite (round_double_at _ (-1)).
  - change (-1 - 52)%Z with (- (53))%Z. rewrite pow2_neg, pow2_nat by lia.
    change (2 ^ 53)%Z with 9007199254740992%Z.
    replace (3 * (6004799503160661 / 18014398509481984) / / 9007199254740992)
      with (IZR 9007199254740991 + 1 / 2) by lra.
    rewrite rne_tie. change (Z.even 9007199254740991) with false. cbv iota.
    change (9007199254740991 + 1)%Z with 9007199254740992%Z. lra.
  - lia.
  - change (-1 + 1)%Z with 0%Z. rewrite pow2_0.
    change (-1)%Z with (- (1))%Z. rewrite pow2_neg, pow2_1.
    rewrite Rabs_pos_eq by lra. lra.
  - apply dbl_round_limit_large. rewrite Rabs_pos_eq by lra.
    rewrite pow_IZR. change (2 ^ Z.of_nat 53)%Z with 9007199254740992%Z. lra.
Qed.

Lemma round_double_half (m : Z) :
  (Z.abs m < 2 ^ 53)%Z -> round_double (IZR m / 2) = IZR m / 2.
Proof.
  intros H. replace (IZR m / 2) with (IZR m * pow2 (- (1))).
  - apply round_double_exact; [exact H | lia].
  - rewrite pow2_neg, pow2_1. reflexivity.
Qed.

(** ** Truncation and the 16-bit cast *)

Lemma trunc_nonneg x : 0 <= x -> trunc x = Zfloor x.
Proof.
  intros H. unfold trunc. destruct (Rle_dec 0 x); [reflexivity | contradiction].
Qed.

Lemma trunc_neg x : x < 0 -> trunc x = Zceil x.
Proof. intros H. unfold trunc. destruct (Rle_dec 0 x); [lra | reflexivity]. Qed.

Lemma Zceil_eq (z : Z) x : IZR z - 1 < x <= IZR z -> Zceil x = z.
Proof.
  intros H. unfold Zceil.
  rewrite (Zfloor_eq (- z) (- x)); [lia |]. rewrite opp_IZR. lra.
Qed.

Lemma trunc_IZR z : trunc (IZR z) = z.
Proof.
  unfold trunc. destruct (Rle_dec 0 (IZR z)).
  - apply ZfloorZ.
  - apply Zceil_eq. lra.
Qed.

(** Truncation moves toward zero by less than one. *)
Lemma trunc_bounds x :
  (0 <= x -> IZR (trunc x) <= x < IZR (trunc x) + 1) /\
  (x < 0 -> IZR (trunc x) - 1 < x <= IZR (trunc x)).
Proof.
  split; intros H.
  - rewrite trunc_nonneg by exact H. apply Zfloor_bound.
  - rewrite trunc_neg by exact H. apply Zceil_bound.
Qed.

Lemma trunc_sign x :
  (0 <= x -> (0 <= trunc x)%Z) /\ (x < 0 -> (trunc x <= 0)%Z).
Proof.
  destruct (trunc_bounds x) as [Hp Hn]. split; intros H.
  - rewrite trunc_nonneg by exact H. apply Zfloor_lub. exact H.
  - specialize (Hn H).
    destruct (Z_le_gt_dec (trunc x) 0) as [Hle | Hgt]; [exact Hle |].
    exfalso. assert (1 <= IZR (trunc x)) by (apply IZR_le; lia). lra.
Qed.

Lemma trunc_gt_m1 x : -1 < x -> (0 <= trunc x)%Z.
Proof.
  intros H. destruct (Rle_dec 0 x) as [H0 | H0].
  - apply (proj1 (trunc_sign x) H0).
  - rewrite trunc_neg by lra. rewrite (Zceil_eq 0 x); [lia | lra].
Qed.

Lemma trunc_range x (lo hi : Z) :
  (lo <= 0 <= hi)%Z -> IZR lo - 1 < x < IZR hi + 1 -> (lo <= trunc x <= hi)%Z.
Proof.
  intros Hz Hx. destruct (trunc_bounds x) as [Hp Hn].
  destruct (trunc_sign x) as [Sp Sn].
  destruct (Rle_dec 0 x) as [H0 | H0].
  - specialize (Hp H0). specialize (Sp H0). split; [lia |].
    assert (IZR (trunc x) < IZR (hi + 1)) as Hc by (rewrite plus_IZR; lra).
    apply lt_IZR in Hc. lia.
  - assert (x < 0) as Hlt by lra.
    specialize (Hn Hlt). specialize (Sn Hlt). split; [| lia].
    assert (IZR (lo - 1) < IZR (trunc x)) as Hc by (rewrite minus_IZR; lra).
    apply lt_IZR in Hc. lia.
Qed.

Lemma wrap16_id z : (int16_min <= z <= int16_max)%Z -> wrap16 z = z.
Proof.
  unfold int16_min, int16_max, wrap16. intros H.
  rewrite Z.mod_small by lia. lia.
Qed.

Lemma wrap16_range z : (int16_min <= wrap16 z <= int16_max)%Z.
Proof.
  unfold int16_min, int16_max, wrap16.
  pose proof (Z.mod_pos_bound (z + 32768) 65536). lia.
Qed.

Lemma abs_sin_le_1 x : -1 <= sin x <= 1.
Proof. pose proof (SIN_bound x). lra. Qed.

(** With an amplitude in [[-1, 1]] the scaled sample fits 16 bits and the
    cast is plain truncation. *)
Lemma no_wrap_samples f a (t : list R) :
  -1 <= a <= 1 ->
  forall s, s ∈ sine_wave f a t ->
    (int16_min <= trunc (s * 32767) <= int16_max)%Z /\
    np_int16 (s * 32767) = trunc (s * 32767).
Proof.
  intros Ha s Hs. unfold sine_wave in Hs.
  apply list_elem_of_fmap in Hs as [ti [-> _]].
  pose proof (abs_sin_le_1 (2 * PI * f * ti)) as Hsin.
  assert (-1 <= a * sin (2 * PI * f * ti) <= 1) as Hb by nra.
  assert (int16_min <= trunc (a * sin (2 * PI * f * ti) * 32767) <= int16_max)%Z
    as Hr.
  { apply trunc_range; unfold int16_min, int16_max; [lia | lra]. }
  split; [exact Hr |]. unfold np_int16. apply wrap16_id. exact Hr.
Qed.

(** ** The sample times *)

Lemma linspace_open start stop num :
  (0 <= num)%Z ->
  linspace start stop num false =
    Ok (map (fun i => IZR i * ((stop - start) / IZR num) + start) (seqZ 0 num)).
Proof.
  intros Hn. unfold linspace.
  destruct (Z.ltb_spec num 0) as [? | _]; [lia |].
  cbn [andb]. f_equal.
  destruct (Z.ltb_spec 0 num) as [Hpos | H0].
  - assert (IZR num <> 0) by (apply not_0_IZR; lia).
    destruct (Req_dec_T _ _) as [_ | _].
    + rewrite !map_map. apply map_ext. intros i. field. assumption.
    + rewrite !map_map. reflexivity.
  - assert (num = 0%Z) by lia. subst num. reflexivity.
Qed.

(** The count of sample times. *)
Lemma sample_count_finite sr dur :
  in_double_range (IZR sr * dur) -> in_double_range (float_mul (IZR sr) dur).
Proof. apply round_double_finite. Qed.

Lemma sample_count_floor sr dur :
  0 <= IZR sr * dur ->
  (0 <= sample_count sr dur)%Z /\
  sample_count sr dur = Zfloor (float_mul (IZR sr) dur).
Proof.
  intros H. pose proof (round_double_nonneg _ H) as Hr.
  fold (float_mul (IZR sr) dur) in Hr. unfold sample_count. split.
  - apply (proj1 (trunc_sign _) Hr).
  - apply trunc_nonneg. exact Hr.
Qed.

Lemma sample_count_ge_1 sr dur :
  1 <= IZR sr * dur -> (1 <= sample_count sr dur)%Z.
Proof.
  intros H. pose proof (round_double_ge_1 _ H) as Hr.
  fold (float_mul (IZR sr) dur) in Hr. unfold sample_count.
  rewrite trunc_nonneg by lra. apply Zfloor_lub. exact Hr.
Qed.

Lemma sample_count_negative sr dur :
  IZR sr * dur <= -1 -> (sample_count sr dur < 0)%Z.
Proof.
  intros H. pose proof (round_double_le_m1 _ H) as Hr.
  fold (float_mul (IZR sr) dur) in Hr. unfold sample_count.
  destruct (trunc_bounds (float_mul (IZR sr) dur)) as [_ Hb].
  assert (float_mul (IZR sr) dur < 0) as Hneg by lra. specialize (Hb Hneg).
  assert (IZR (trunc (float_mul (IZR sr) dur)) < IZR 0) as Hlt by lra.
  apply lt_IZR in Hlt. exact Hlt.
Qed.

(** An integer product below [2^53] is exact. *)
Lemma sample_count_IZR (sr n : Z) :
  (Z.abs (sr * n) < 2 ^ 53)%Z -> sample_count sr (IZR n) = (sr * n)%Z.
Proof.
  intros H. unfold sample_count. rewrite float_mul_IZR by exact H.
  apply trunc_IZR.
Qed.

Lemma sample_times_ok sr dur :
  (Z.abs sr < 2 ^ 1024)%Z -> in_double_range (IZR sr * dur) ->
  (0 <= sample_count sr dur)%Z ->
  sample_times sr dur = Ok (time_grid dur (sample_count sr dur)).
Proof.
  intros Hsr Hfin Hn. unfold sample_times.
  rewrite float_of_int_ok by exact Hsr. cbn [bind].
  rewrite py_int_ok by (apply sample_count_finite; exact Hfin). cbn [bind].
  fold (sample_count sr dur).
  rewrite linspace_open by exact Hn. f_equal.
  apply map_ext. intros i. rewrite Rminus_0_r. ring.
Qed.

Lemma sample_times_negative sr dur :
  (Z.abs sr < 2 ^ 1024)%Z -> in_double_range (IZR sr * dur) ->
  (sample_count sr dur < 0)%Z ->
  sample_times sr dur = Raise ValueError.
Proof.
  intros Hsr Hfin Hn. unfold sample_times.
  rewrite float_of_int_ok by exact Hsr. cbn [bind].
  rewrite py_int_ok by (apply sample_count_finite; exact Hfin). cbn [bind].
  fold (sample_count sr dur). unfold linspace.
  destruct (Z.ltb_spec (sample_count sr dur) 0); [reflexivity | lia].
Qed.

(** A call that returns has laid out [sample_count] sample times. *)
Lemma sample_times_inv sr dur t :
  sample_times sr dur = Ok t ->
  (0 <= sample_count sr dur)%Z /\ t = time_grid dur (sample_count sr dur).
Proof.
  unfold sample_times, float_of_int, py_int. intros H.
  destruct (is_finite (IZR sr)); [| discriminate]. cbn [bind] in H.
  destruct (is_finite (float_mul (IZR sr) dur)); [| discriminate].
  cbn [bind] in H. fold (sample_count sr dur) in H.
  destruct (Z_lt_le_dec (sample_count sr dur) 0) as [Hneg | Hpos].
  - exfalso. unfold linspace in H.
    destruct (Z.ltb_spec (sample_count sr dur) 0); [discriminate | lia].
  - split; [exact Hpos |].
    rewrite linspace_open in H by exact Hpos. injection H as <-.
    apply map_ext. intros i. rewrite Rminus_0_r. ring.
Qed.

Lemma length_time_grid dur n : length (time_grid dur n) = Z.to_nat n.
Proof. unfold time_grid. rewrite length_map. apply length_seqZ. Qed.

Lemma lookup_time_grid dur n (i : nat) :
  (i < Z.to_nat n)%nat -> time_grid dur n !! i = Some (INR i * (dur / IZR n)).
Proof.
  intros Hi. unfold time_grid.
  change (map ?f ?l) with (f <$> l). rewrite list_lookup_fmap.
  rewrite lookup_seqZ_lt by lia. cbn. rewrite Z.add_0_l, <- INR_IZR_INZ.
  reflexivity.
Qed.

Lemma time_grid_in_range dur n ti :
  0 < dur -> ti ∈ time_grid dur n -> 0 <= ti < dur.
Proof.
  intros Hd Hin. apply list_elem_of_lookup in Hin as [i Hi].
  assert (i < Z.to_nat n)%nat as Hlt.
  { rewrite <- (length_time_grid dur n). eapply lookup_lt_Some; eassumption. }
  rewrite lookup_time_grid in Hi by exact Hlt. injection Hi as <-.
  assert (0 < IZR n) as Hn by (apply IZR_lt; lia).
  assert (INR i < IZR n) as Hin.
  { rewrite INR_IZR_INZ. apply IZR_lt. lia. }
  pose proof (pos_INR i) as Hi0.
  assert (0 < dur / IZR n) as Hstep by (apply Rdiv_lt_0_compat; assumption).
  split; [apply Rmult_le_pos; lra |].
  replace dur with (IZR n * (dur / IZR n)) at 2 by (field; lra).
  apply Rmult_lt_compat_r; assumption.
Qed.

(** With a duration of zero there is no sample time. *)
Lemma sample_count_zero_duration sr : sample_count sr 0 = 0%Z.
Proof.
  unfold sample_count, float_mul. rewrite Rmult_0_r, round_double_0.
  apply (trunc_IZR 0).
Qed.

Lemma lookup_sine_wave f a (t : list R) (i : nat) :
  sine_wave f a t !! i = (fun ti => a * sin (2 * PI * f * ti)) <$> (t !! i).
Proof. unfold sine_wave. apply list_lookup_fmap. Qed.

(** ** Stereo interleaving *)

Lemma length_stereo a : length (stereo a) = (2 * length a)%nat.
Proof. induction a as [| v a IH]; cbn; [reflexivity | rewrite IH; lia]. Qed.

Lemma lookup_stereo a (k : nat) :
  stereo a !! (2 * k)%nat = a !! k /\ stereo a !! (2 * k + 1)%nat = a !! k.
Proof.
  revert k. induction a as [| v a IH]; intros k.
  - cbn. rewrite !lookup_nil. split; reflexivity.
  - destruct k as [| k].
    + split; reflexivity.
    + replace (2 * S k)%nat with (S (S (2 * k))) by lia.
      replace (S (S (2 * k)) + 1)%nat with (S (S (2 * k + 1))) by lia.
      cbn [stereo lookup list_lookup]. apply IH.
Qed.

Lemma elem_of_stereo (a : list Z) v : v ∈ stereo a <-> v ∈ a.
Proof.
  induction a as [| w a IH]; cbn [stereo].
  - reflexivity.
  - rewrite !elem_of_cons, IH. tauto.
Qed.

Lemma generate_sine_wave_ok sr dur f a :
  (Z.abs sr < 2 ^ 1024)%Z -> in_double_range (IZR sr * dur) ->
  (0 <= sample_count sr dur)%Z ->
  generate_sine_wave sr dur f a =
    Ok (stereo (sine_wave_int
                  (sine_wave f a (time_grid dur (sample_count sr dur))))).
Proof.
  intros Hsr Hfin Hn. unfold generate_sine_wave.
  rewrite sample_times_ok by assumption. reflexivity.
Qed.

(** A call that returns has returned the samples of its sample times. *)
Lemma generate_sine_wave_inv sr dur f a out :
  generate_sine_wave sr dur f a = Ok out ->
  exists t, sample_times sr dur = Ok t /\
            out = stereo (sine_wave_int (sine_wave f a t)).
Proof.
  unfold generate_sine_wave. intros H.
  destruct (sample_times sr dur) as [t |]; [| discriminate].
  cbn [bind] in H. injection H as <-. exists t. split; reflexivity.
Qed.

Lemma length_generated f a dur n :
  length (stereo (sine_wave_int (sine_wave f a (time_grid dur n))))
  = (2 * Z.to_nat n)%nat.
Proof.
  rewrite length_stereo. unfold sine_wave_int, sine_wave.
  rewrite !length_map, length_time_grid. reflexivity.
Qed.

(** ** The synthesizer: claims C1, C2, C6 and C9 *)

(** A call with finite inputs and a non-negative product returns. *)
Lemma generate_sine_wave_returns sr dur f a :
  (Z.abs sr < 2 ^ 1024)%Z -> in_double_range (IZR sr * dur) ->
  0 <= IZR sr * dur ->
  exists out, generate_sine_wave sr dur f a = Ok out.
Proof.
  intros Hsr Hfin Hpos. eexists.
  apply generate_sine_wave_ok; [exact Hsr | exact Hfin |].
  apply sample_count_floor. exact Hpos.
Qed.

Lemma time_grid_0 dur : time_grid dur 0 = [].
Proof. reflexivity. Qed.

(** C1, as amended.  For every call [generate_sine_wave sr dur f a], of a
    sample rate and a duration that are not negative, that returns
    [out]: [out] is built from [floor (sr * dur)] sample times, where
    [sr * dur] is the product as the code computes it, in double
    precision; the [i]-th sample time is [i * (dur / floor (sr * dur))],
    so the sample times start at 0 and are evenly spaced with the step
    [dur / floor (sr * dur)]; this step is [1 / sr] whenever [sr * dur]
    is an integer; every sample time lies in [[0, dur)]; and the [i]-th
    mono sample before the integer conversion is
    [a * sin (2 * PI * f * t_i)]. *)
Theorem generate_sine_wave_times (sr : Z) (dur f a : R) (out : list Z) :
  (0 <= sr)%Z -> 0 <= dur ->
  generate_sine_wave sr dur f a = Ok out ->
  exists t,
    sample_times sr dur = Ok t /\
    out = stereo (sine_wave_int (sine_wave f a t)) /\
    length t = Z.to_nat (Zfloor (float_mul (IZR sr) dur)) /\
    (forall i, (i < length t)%nat ->
       t !! i = Some (INR i * (dur / IZR (Zfloor (float_mul (IZR sr) dur))))) /\
    (IZR sr * dur = IZR (Zfloor (float_mul (IZR sr) dur)) ->
       forall i, (i < length t)%nat -> t !! i = Some (INR i * (1 / IZR sr))) /\
    (forall ti, ti ∈ t -> 0 <= ti < dur) /\
    (forall i ti, t !! i = Some ti ->
       sine_wave f a t !! i = Some (a * sin (2 * PI * f * ti))).
Proof.
  intros Hsr Hdur Hout.
  destruct (generate_sine_wave_inv _ _ _ _ _ Hout) as (t & Ht & ->).
  destruct (sample_times_inv _ _ _ Ht) as [Hn ->].
  assert (0 <= IZR sr * dur) as Hpos.
  { apply Rmult_le_pos; [apply IZR_le; exact Hsr | exact Hdur]. }
  destruct (sample_count_floor sr dur Hpos) as [_ Hfl]. rewrite <- Hfl.
  exists (time_grid dur (sample_count sr dur)).
  split; [exact Ht |]. split; [reflexivity |].
  split; [apply length_time_grid |].
  split; [| split; [| split]].
  - intros i Hi. rewrite length_time_grid in Hi. apply lookup_time_grid. exact Hi.
  - intros Hint i Hi. rewrite length_time_grid in Hi.
    rewrite lookup_time_grid by exact Hi. f_equal. f_equal.
    assert (0 < IZR (sample_count sr dur)) as Hnpos by (apply IZR_lt; lia).
    rewrite <- Hint in *.
    assert (IZR sr <> 0) by (intros E; rewrite E in Hnpos; lra).
    assert (dur <> 0) by (intros E; rewrite E in Hnpos; lra).
    field. split; assumption.
  - intros ti Hti. destruct (Rlt_dec 0 dur) as [Hd | Hd].
    + apply (time_grid_in_range dur (sample_count sr dur) ti); assumption.
    + exfalso. assert (dur = 0) as E by lra. rewrite E in Hti.
      rewrite sample_count_zero_duration, time_grid_0 in Hti.
      apply elem_of_nil in Hti. exact Hti.
  - intros i ti Hi. rewrite lookup_sine_wave, Hi. reflexivity.
Qed.

Lemma generate_sine_wave_times_witness :
  (0 <= 44100)%Z /\ 0 <= 5 /\
  exists out,
    generate_sine_wave 44100 5 440 (1 / 2) = Ok out /\
    exists t, sample_times 44100 5 = Ok t /\
              length t = Z.to_nat (Zfloor (float_mul (IZR 44100) 5)).
Proof.
  assert (0 <= 44100)%Z as H1 by discriminate.
  assert (0 <= 5) as H2 by lra.
  split; [exact H1 |]. split; [exact H2 |].
  destruct (generate_sine_wave_returns 44100 5 440 (1 / 2)) as [out Hout].
  - reflexivity.
  - rewrite <- mult_IZR. apply in_double_range_IZR. reflexivity.
  - lra.
  - exists out. split; [exact Hout |].
    destruct (generate_sine_wave_times 44100 5 440 (1 / 2) out H1 H2 Hout)
      as (t & Ht & _ & Hlen & _).
    exists t. split; [exact Ht | exact Hlen].
Defined.

Lemma sample_count_2_5_4 : sample_count 2 (5 / 4) = 2%Z.
Proof.
  unfold sample_count, float_mul.
  replace (2 * (5 / 4)) with (IZR 5 / 2) by lra.
  rewrite round_double_half by reflexivity.
  rewrite trunc_nonneg by lra. apply Zfloor_eq. lra.
Qed.

(** C1 as stated fails: with [sr = 2] and [dur = 5/4] the two sample
    times are [0] and [5/8], not [0] and [1/2]. *)
Lemma sample_times_step_counterexample :
  exists t, sample_times 2 (5 / 4) = Ok t /\
            t !! 1%nat = Some (5 / 8) /\ 5 / 8 <> INR 1 * (1 / IZR 2).
Proof.
  assert (in_double_range (2 * (5 / 4))) as Hfin.
  { apply (in_double_range_small _ 3); [| discriminate].
    rewrite Rabs_pos_eq by lra. lra. }
  exists (time_grid (5 / 4) 2). split; [| split].
  - rewrite sample_times_ok;
      [rewrite sample_count_2_5_4; reflexivity | reflexivity | exact Hfin
       | rewrite sample_count_2_5_4; lia].
  - rewrite lookup_time_grid by (cbn; lia). f_equal. cbn. lra.
  - cbn. lra.
Qed.

(** C2.  For every call with a non-negative product [sr * dur] that
    returns, the interleaved result has length exactly
    [2 * floor (sr * dur)], where [sr * dur] is the product as the code
    computes it, in double precision; in every frame the left value
    equals the right value, and frame [k] carries mono sample [k]. *)
Theorem generate_sine_wave_stereo (sr : Z) (dur f a : R) (out : list Z) :
  0 <= IZR sr * dur ->
  generate_sine_wave sr dur f a = Ok out ->
  Z.of_nat (length out) = (2 * Zfloor (float_mul (IZR sr) dur))%Z /\
  (forall k : nat, out !! (2 * k)%nat = out !! (2 * k + 1)%nat) /\
  exists t,
    sample_times sr dur = Ok t /\
    forall k : nat,
      out !! (2 * k)%nat = sine_wave_int (sine_wave f a t) !! k.
Proof.
  intros Hpos Hout.
  destruct (generate_sine_wave_inv _ _ _ _ _ Hout) as (t & Ht & ->).
  destruct (sample_times_inv _ _ _ Ht) as [Hn ->].
  destruct (sample_count_floor sr dur Hpos) as [_ Hfl]. rewrite <- Hfl.
  split; [rewrite length_generated; lia |]. split.
  - intros k. destruct (lookup_stereo (sine_wave_int (sine_wave f a
      (time_grid dur (sample_count sr dur)))) k) as [-> ->]. reflexivity.
  - eexists. split; [exact Ht |]. intros k. apply lookup_stereo.
Qed.

(** At a rate of 10 and a duration of 0.3 the product rounds up to 3.0:
    three frames. *)
Lemma generate_sine_wave_stereo_witness :
  0 <= IZR 10 * three_tenths /\
  exists out,
    generate_sine_wave 10 three_tenths 440 1 = Ok out /\
    Z.of_nat (length out) = 6%Z /\
    forall k : nat, out !! (2 * k)%nat = out !! (2 * k + 1)%nat.
Proof.
  assert (0 <= IZR 10 * three_tenths) as H1 by (unfold three_tenths; lra).
  split; [exact H1 |].
  destruct (generate_sine_wave_returns 10 three_tenths 440 1) as [out Hout].
  - reflexivity.
  - apply (in_double_range_small _ 3); [| discriminate].
    unfold three_tenths. rewrite Rabs_pos_eq by lra. lra.
  - exact H1.
  - exists out. split; [exact Hout |].
    destruct (generate_sine_wave_stereo 10 three_tenths 440 1 out H1 Hout)
      as (Hlen & Hlr & _).
    split; [| exact Hlr].
    rewrite Hlen, (proj2 float_mul_three_tenths), (ZfloorZ 3). reflexivity.
Defined.

(** Outside the documented domain, with a negative duration, the count
    is truncated toward zero and not floored: with [sr = 1] and
    [dur = -1/2] the call returns the empty sequence. *)
Remark negative_duration_truncates :
  generate_sine_wave 1 (- (1 / 2)) 440 1 = Ok [] /\
  Zfloor (float_mul (IZR 1) (- (1 / 2))) = (-1)%Z.
Proof.
  assert (float_mul 1 (- (1 / 2)) = - (1 / 2)) as E.
  { unfold float_mul. replace (1 * - (1 / 2)) with (IZR (-1) / 2) by lra.
    rewrite round_double_half by reflexivity. lra. }
  assert (sample_count 1 (- (1 / 2)) = 0%Z) as C.
  { unfold sample_count. rewrite E, trunc_neg by lra. apply Zceil_eq. lra. }
  split.
  - rewrite generate_sine_wave_ok; [rewrite C; reflexivity | reflexivity | | rewrite C; lia].
    apply (in_double_range_small _ 1); [| discriminate].
    rewrite Rabs_left by lra. lra.
  - rewrite E. apply Zfloor_eq. lra.
Qed.

(** C6.  Each mono sample is multiplied by 32767 and cast to a 16-bit
    integer by [np_int16] (truncation, then the low 16 bits; no
    clipping); for every amplitude of the documented range 0..1, and
    more generally for [-1 <= a <= 1], every truncated value lies within
    the int16 bounds, so the cast is plain truncation and never wraps. *)
Theorem sine_wave_int_no_overflow (sr : Z) (dur f a : R) (out : list Z) :
  -1 <= a <= 1 ->
  generate_sine_wave sr dur f a = Ok out ->
  exists t,
    sample_times sr dur = Ok t /\
    out = stereo (map (fun s => np_int16 (s * 32767)) (sine_wave f a t)) /\
    forall s, s ∈ sine_wave f a t ->
      (int16_min <= trunc (s * 32767) <= int16_max)%Z /\
      np_int16 (s * 32767) = trunc (s * 32767).
Proof.
  intros Ha Hout.
  destruct (generate_sine_wave_inv _ _ _ _ _ Hout) as (t & Ht & ->).
  exists t. split; [exact Ht |]. split; [reflexivity |].
  apply no_wrap_samples. exact Ha.
Qed.

Lemma sine_wave_int_no_overflow_witness :
  -1 <= 1 <= 1 /\
  exists out t,
    generate_sine_wave 44100 5 440 1 = Ok out /\
    sample_times 44100 5 = Ok t /\
    forall s, s ∈ sine_wave 440 1 t ->
      (int16_min <= trunc (s * 32767) <= int16_max)%Z.
Proof.
  assert (-1 <= 1 <= 1) as H1 by lra.
  split; [exact H1 |].
  destruct (generate_sine_wave_returns 44100 5 440 1) as [out Hout].
  - reflexivity.
  - rewrite <- mult_IZR. apply in_double_range_IZR. reflexivity.
  - lra.
  - destruct (sine_wave_int_no_overflow 44100 5 440 1 out H1 Hout)
      as (t & Ht & _ & Hb).
    exists out, t. split; [exact Hout |]. split; [exact Ht |].
    intros s Hs. exact (proj1 (Hb s Hs)).
Defined.

(** Outside the documented range the cast does wrap: with the amplitude
    [-2], [sr = 4], [dur = 1] and [f = 1] the second sample is
    [-2 * sin (PI/2)], whose scaled value [-65534] is below the int16
    range. *)
Remark negative_amplitude_wraps :
  exists t s, sample_times 4 1 = Ok t /\ s ∈ sine_wave 1 (-2) t /\
              (trunc (s * 32767) < int16_min)%Z /\
              np_int16 (s * 32767) <> trunc (s * 32767).
Proof.
  assert (sample_count 4 1 = 4%Z) as E by (apply (sample_count_IZR 4 1); reflexivity).
  assert (in_double_range (4 * 1)) as Hfin.
  { replace (4 * 1) with (IZR 4) by lra. apply in_double_range_IZR. reflexivity. }
  exists (time_grid 1 4), (-2).
  assert (trunc (-2 * 32767) = (-65534)%Z) as P.
  { replace (-2 * 32767) with (IZR (-65534)) by lra. apply trunc_IZR. }
  split; [| split; [| split]].
  - rewrite sample_times_ok;
      [rewrite E; reflexivity | reflexivity | exact Hfin | rewrite E; lia].
  - apply list_elem_of_lookup. exists 1%nat.
    rewrite lookup_sine_wave, lookup_time_grid by (cbn; lia). cbn.
    f_equal. replace (2 * PI * 1 * (1 * (1 / 4))) with (PI / 2) by lra.
    rewrite sin_PI2. lra.
  - rewrite P. unfold int16_min. lia.
  - unfold np_int16. rewrite P. vm_compute. discriminate.
Qed.

(** C9.  For every call that produces at least one frame
    ([floor (sr * dur) >= 1], inputs in the double range), the result
    starts with the pair (0, 0), whatever the frequency and the
    amplitude: the first sample time is 0 and [sin 0 = 0]. *)
Theorem first_frame_zero (sr : Z) (dur f a : R) :
  (Z.abs sr < 2 ^ 1024)%Z -> in_double_range (IZR sr * dur) ->
  (1 <= Zfloor (IZR sr * dur))%Z ->
  exists rest, generate_sine_wave sr dur f a = Ok (0 :: 0 :: rest)%Z.
Proof.
  intros Hsr Hfin Hfl.
  assert (1 <= IZR sr * dur) as Hpos.
  { pose proof (Zfloor_bound (IZR sr * dur)) as [Hb _].
    assert (1 <= IZR (Zfloor (IZR sr * dur))) by (apply IZR_le; exact Hfl). lra. }
  pose proof (sample_count_ge_1 sr dur Hpos) as Hn.
  rewrite generate_sine_wave_ok; [| exact Hsr | exact Hfin | lia].
  unfold time_grid. rewrite seqZ_cons by lia.
  cbn [map sine_wave sine_wave_int stereo].
  replace (a * sin (2 * PI * f * (0 * (dur / IZR (sample_count sr dur)))) * 32767)
    with (IZR 0).
  - unfold np_int16. rewrite trunc_IZR. change (wrap16 0) with 0%Z.
    eexists. reflexivity.
  - rewrite Rmult_0_l, Rmult_0_r, sin_0. ring.
Qed.

Lemma first_frame_zero_witness :
  (Z.abs 44100 < 2 ^ 1024)%Z /\ in_double_range (IZR 44100 * 5) /\
  (1 <= Zfloor (IZR 44100 * 5))%Z /\
  exists rest, generate_sine_wave 44100 5 440 (1 / 2) = Ok (0 :: 0 :: rest)%Z.
Proof.
  assert (Z.abs 44100 < 2 ^ 1024)%Z as H1 by reflexivity.
  assert (in_double_range (IZR 44100 * 5)) as H2.
  { rewrite <- mult_IZR. apply in_double_range_IZR. reflexivity. }
  assert (1 <= Zfloor (IZR 44100 * 5))%Z as H3.
  { rewrite <- mult_IZR, ZfloorZ. discriminate. }
  split; [exact H1 |]. split; [exact H2 |]. split; [exact H3 |].
  exact (first_frame_zero 44100 5 440 (1 / 2) H1 H2 H3).
Defined.

(** ** The conversions: claims C3 and C4 *)

Lemma freq_of_step (n k : Z) :
  freq_of (n + k) = freq_of n * Rpower 2 (IZR k / 12).
Proof.
  unfold freq_of. rewrite Rmult_assoc, <- Rpower_plus. f_equal. f_equal.
  replace (n + k - 69)%Z with ((n - 69) + k)%Z by lia.
  rewrite plus_IZR. lra.
Qed.

Lemma freq_of_lt (n m : Z) : (n < m)%Z -> freq_of n < freq_of m.
Proof.
  intros H. unfold freq_of. apply Rmult_lt_compat_l; [lra |].
  apply Rpower_lt; [lra |].
  assert (IZR (n - 69) < IZR (m - 69)) by (apply IZR_lt; lia). lra.
Qed.

Lemma midi_to_freq_ok (n : Z) :
  (69 - 2 ^ 1024 < n < 12357)%Z -> midi_to_freq n = Ok (freq_of n).
Proof.
  intros [Hlo Hhi]. unfold midi_to_freq, freq_of.
  rewrite float_of_int_ok by lia. cbn [bind].
  rewrite py_pow_ok; [reflexivity |].
  rewrite dbl_limit_Rpower. apply Rpower_lt; [lra |].
  assert (IZR (n - 69) < 12288) by (apply IZR_lt; lia). lra.
Qed.

(** Up to note 12251 the product [440 * 2^((n-69)/12)] is a finite
    double; from note 12252 on it is not. *)
Lemma freq_of_finite (n : Z) : (n <= 12251)%Z -> freq_of n < dbl_limit.
Proof.
  intros H. apply Rle_lt_trans with (freq_of 12251).
  { destruct (Z.eq_dec n 12251%Z) as [-> | Hne]; [lra |].
    left. apply freq_of_lt. lia. }
  unfold freq_of. change (12251 - 69)%Z with 12182%Z.
  set (q := Rpower 2 (53 / 6)).
  assert (0 < q) as Hq by apply Rpower_pos.
  assert (q ^ 6 = 2 ^ 53) as Hq6.
  { unfold q. rewrite <- (Rpower_pow 6) by apply Rpower_pos.
    rewrite Rpower_mult. replace (53 / 6 * INR 6) with 53 by (cbn; lra).
    rewrite Rpower_nat by (lra || lia). reflexivity. }
  assert (440 < q) as Hlt.
  { apply Rnot_le_lt. intros Hle.
    assert (q ^ 6 <= 440 ^ 6) as Hpow by (apply pow_incr; lra).
    rewrite Hq6, !pow_IZR in Hpow.
    apply le_IZR in Hpow. revert Hpow. vm_compute. intros Hc. apply Hc.
    reflexivity. }
  rewrite dbl_limit_Rpower.
  replace 1024 with (12182 / 12 + 53 / 6) by lra.
  rewrite Rpower_plus. fold q.
  pose proof (Rpower_pos 2 (12182 / 12)). nra.
Qed.

Lemma freq_of_infinite (n : Z) : (12252 <= n)%Z -> dbl_limit <= freq_of n.
Proof.
  intros H. apply Rle_trans with (freq_of 12252).
  2: { destruct (Z.eq_dec n 12252%Z) as [-> | Hne]; [lra |].
       left. apply freq_of_lt. lia. }
  unfold freq_of. change (12252 - 69)%Z with 12183%Z.
  set (q := Rpower 2 (35 / 4)).
  assert (0 < q) as Hq by apply Rpower_pos.
  assert (q ^ 4 = 2 ^ 35) as Hq4.
  { unfold q. rewrite <- (Rpower_pow 4) by apply Rpower_pos.
    rewrite Rpower_mult. replace (35 / 4 * INR 4) with 35 by (cbn; lra).
    rewrite Rpower_nat by (lra || lia). reflexivity. }
  assert (q < 440) as Hlt.
  { apply Rnot_le_lt. intros Hle.
    assert (440 ^ 4 <= q ^ 4) as Hpow by (apply pow_incr; lra).
    rewrite Hq4, !pow_IZR in Hpow.
    apply le_IZR in Hpow. revert Hpow. vm_compute. intros Hc. apply Hc.
    reflexivity. }
  rewrite dbl_limit_Rpower.
  replace 1024 with (12183 / 12 + 35 / 4) by lra.
  rewrite Rpower_plus. fold q.
  pose proof (Rpower_pos 2 (12183 / 12)). nra.
Qed.

(** C3, as amended.  For every integer [n] with
    [69 - (2^1024 - 2^970) < n <= 12251], where [n - 69] converts to a
    double and [440 * 2^((n-69)/12)] stays in the double range,
    [midi_to_freq n] returns [440 * 2^((n-69)/12)], a finite value; in
    particular [midi_to_freq 69] returns exactly 440.  The function has
    no state. *)
Theorem midi_to_freq_spec (n : Z) :
  (69 - (2 ^ 1024 - 2 ^ 970) < n <= 12251)%Z ->
  midi_to_freq n = Ok (440 * Rpower 2 (IZR (n - 69) / 12)) /\
  in_double_range (440 * Rpower 2 (IZR (n - 69) / 12)) /\
  (n = 69%Z -> midi_to_freq n = Ok 440).
Proof.
  intros Hn. split; [apply midi_to_freq_ok; lia |]. split.
  - unfold in_double_range. rewrite Rabs_pos_eq.
    + apply (freq_of_finite n). lia.
    + pose proof (Rpower_pos 2 (IZR (n - 69) / 12)). lra.
  - intros ->. rewrite midi_to_freq_ok by lia. f_equal. unfold freq_of.
    change (69 - 69)%Z with 0%Z. replace (0 / 12) with 0 by lra.
    rewrite Rpower_O by lra. lra.
Qed.

Lemma midi_to_freq_spec_witness :
  (69 - (2 ^ 1024 - 2 ^ 970) < 69 <= 12251)%Z /\ midi_to_freq 69 = Ok 440.
Proof.
  assert (69 - (2 ^ 1024 - 2 ^ 970) < 69 <= 12251)%Z as H
    by (split; [reflexivity | discriminate]).
  split; [exact H |].
  exact (proj2 (proj2 (midi_to_freq_spec 69 H)) eq_refl).
Defined.

(** C3 as stated fails: the function is not total.  For note 12357 the
    exponent is 1024 and [2 ** 1024.0] raises [OverflowError]. *)
Lemma midi_to_freq_overflow_counterexample :
  midi_to_freq 12357 = Raise OverflowError.
Proof.
  unfold midi_to_freq. rewrite float_of_int_ok by reflexivity.
  cbn [bind]. change (12357 - 69)%Z with 12288%Z.
  rewrite py_pow_overflow; [reflexivity |].
  replace (12288 / 12) with 1024 by lra. rewrite dbl_limit_Rpower. lra.
Qed.

Lemma pow10_308_finite : 10 ^ 308 < dbl_limit.
Proof.
  rewrite dbl_limit_IZR, pow_IZR. apply IZR_lt. vm_compute. reflexivity.
Qed.

Lemma pow10_309_overflow : dbl_limit <= 10 ^ 309.
Proof.
  rewrite dbl_limit_IZR, pow_IZR. apply IZR_le. vm_compute. discriminate.
Qed.

Lemma db_to_amp_ok db : db <= 6160 -> db_to_amp db = Ok (Rpower 10 (db / 20)).
Proof.
  intros H. unfold db_to_amp. apply py_pow_ok.
  apply Rle_lt_trans with (Rpower 10 308).
  - apply Rle_Rpower; lra.
  - rewrite Rpower_nat by (lra || lia). apply pow10_308_finite.
Qed.

(** C4, as amended.  For every [db <= 6160] (where [10^(db/20)] stays in
    the double range), [db_to_amp db] returns [10^(db/20)]; in particular
    [db_to_amp 0 = 1] and [db_to_amp (-20) = 1/10]; and for every level
    in [[-30, -6]] the result lies strictly between 0 and 1.  The
    function has no state. *)
Theorem db_to_amp_spec (db : R) :
  db <= 6160 ->
  db_to_amp db = Ok (Rpower 10 (db / 20)) /\
  (db = 0 -> db_to_amp db = Ok 1) /\
  (db = -20 -> db_to_amp db = Ok (1 / 10)) /\
  (-30 <= db <= -6 -> 0 < Rpower 10 (db / 20) < 1).
Proof.
  intros H. split; [apply db_to_amp_ok; exact H |]. split; [| split].
  - intros ->. rewrite db_to_amp_ok by lra. f_equal.
    replace (0 / 20) with 0 by lra. apply Rpower_O. lra.
  - intros ->. rewrite db_to_amp_ok by lra. f_equal.
    replace (-20 / 20) with (- (1)) by lra.
    rewrite Rpower_Ropp, Rpower_1 by lra. lra.
  - intros Hr. split; [apply Rpower_pos |].
    rewrite <- (Rpower_O 10) by lra. apply Rpower_lt; lra.
Qed.

Lemma db_to_amp_spec_witness :
  -20 <= 6160 /\ db_to_amp (-20) = Ok (1 / 10) /\
  0 < Rpower 10 (-20 / 20) < 1.
Proof.
  assert (-20 <= 6160) as H by lra.
  destruct (db_to_amp_spec (-20) H) as (_ & _ & H20 & Hr).
  split; [exact H |]. split; [exact (H20 eq_refl) |].
  apply Hr. lra.
Defined.

(** C4 as stated fails: the function is not total.  For [db = 6180] the
    exponent is 309 and [10 ** 309.0] raises [OverflowError]. *)
Lemma db_to_amp_overflow_counterexample :
  db_to_amp 6180 = Raise OverflowError.
Proof.
  unfold db_to_amp. apply py_pow_overflow.
  replace (6180 / 20) with 309 by lra.
  rewrite Rpower_nat by (lra || lia). apply pow10_309_overflow.
Qed.

(** ** The decibel levels and the loudest amplitude *)

Lemma db_levels_ok :
  linspace (-30) (-6) 8 true = Ok (map db_level (seqZ 0 8)).
Proof.
  unfold linspace.
  change (8 <? 0)%Z with false. change (0 <? 8 - 1)%Z with true.
  change (true && (1 <? 8)%Z) with true. cbv iota. f_equal.
  change (8 - 1)%Z with 7%Z.
  destruct (Req_dec_T ((-6 - -30) / 7) 0) as [E | _]; [exfalso; lra |].
  rewrite !map_map. reflexivity.
Qed.

Lemma array_get_db_levels vel :
  (0 <= vel <= 7)%Z ->
  array_get (map db_level (seqZ 0 8)) vel = Ok (db_level vel).
Proof.
  intros H. unfold array_get.
  destruct (Z.ltb_spec vel 0); [lia |]. destruct (Z.ltb_spec vel 0); [lia |].
  change (map ?f ?l) with (f <$> l). rewrite list_lookup_fmap.
  rewrite lookup_seqZ_lt by lia. cbn. rewrite Z.add_0_l, Z2Nat.id by lia.
  reflexivity.
Qed.

Lemma db_level_range vel : (0 <= vel <= 7)%Z -> -30 <= db_level vel <= -6.
Proof.
  intros H. unfold db_level. destruct (Z.eqb_spec vel 7); [lra |].
  assert (0 <= IZR vel) by (apply IZR_le; lia).
  assert (IZR vel <= 6) by (apply IZR_le; lia). lra.
Qed.

Lemma db_level_even vel :
  (0 <= vel <= 7)%Z -> db_level vel = -30 + IZR vel * (24 / 7).
Proof.
  intros H. unfold db_level. destruct (Z.eqb_spec vel 7) as [-> | _]; lra.
Qed.

(** The tenth power of [10^(-6/20)] is [10^(-3)]. *)
Lemma amp_max_pow10 : Rpower 10 (-6 / 20) ^ 10 = / 1000.
Proof.
  rewrite <- (Rpower_pow 10) by apply Rpower_pos.
  rewrite Rpower_mult.
  replace (-6 / 20 * INR 10) with (- (3)) by (cbn; lra).
  rewrite Rpower_Ropp. f_equal. rewrite Rpower_nat by (lra || lia).
  rewrite pow_IZR. f_equal.
Qed.

(** Rational bounds on [10^(-6/20)], decided on integers. *)
Lemma amp_max_upper (p q : Z) :
  (0 <= p)%Z -> (0 < q)%Z -> (q ^ 10 < 1000 * p ^ 10)%Z ->
  Rpower 10 (-6 / 20) * IZR q < IZR p.
Proof.
  intros Hp0 Hq Hpq. apply Rnot_le_lt. intros Hle.
  assert (0 < IZR q) as Hq' by (apply IZR_lt; exact Hq).
  pose proof (Rpower_pos 10 (-6 / 20)) as Ha.
  assert (0 <= IZR p) as Hp by (apply IZR_le; exact Hp0).
  assert (IZR p ^ 10 <= (Rpower 10 (-6 / 20) * IZR q) ^ 10) as Hpow
    by (apply pow_incr; lra).
  rewrite Rpow_mult_distr, amp_max_pow10, !pow_IZR in Hpow.
  apply IZR_lt in Hpq. rewrite mult_IZR in Hpq.
  change (Z.of_nat 10) with 10%Z in Hpow. lra.
Qed.

Lemma amp_max_lower (p q : Z) :
  (0 <= p)%Z -> (0 <= q)%Z -> (1000 * p ^ 10 < q ^ 10)%Z ->
  IZR p < Rpower 10 (-6 / 20) * IZR q.
Proof.
  intros Hp Hq0 Hpq. apply Rnot_le_lt. intros Hle.
  pose proof (Rpower_pos 10 (-6 / 20)) as Ha.
  assert (0 <= IZR p) as Hp' by (apply IZR_le; exact Hp).
  assert (0 <= IZR q) as Hq by (apply IZR_le; exact Hq0).
  assert ((Rpower 10 (-6 / 20) * IZR q) ^ 10 <= IZR p ^ 10) as Hpow
    by (apply pow_incr; split; [nra | lra]).
  rewrite Rpow_mult_distr, amp_max_pow10, !pow_IZR in Hpow.
  apply IZR_lt in Hpq. rewrite mult_IZR in Hpq.
  change (Z.of_nat 10) with 10%Z in Hpow. lra.
Qed.

Lemma amp_max_approx : 0.5011 < Rpower 10 (-6 / 20) < 0.5012.
Proof.
  pose proof (amp_max_lower 5011 10000 ltac:(lia) ltac:(lia)
                ltac:(vm_compute; reflexivity)).
  pose proof (amp_max_upper 5012 10000 ltac:(lia) ltac:(lia)
                ltac:(vm_compute; reflexivity)).
  lra.
Qed.

Lemma amp_max_scaled : Rpower 10 (-6 / 20) * 32767 < 16423.
Proof. apply amp_max_upper; [lia | lia | vm_compute; reflexivity]. Qed.

Lemma amp_of_range vel :
  (0 <= vel <= 7)%Z -> 0 < amp_of vel <= Rpower 10 (-6 / 20).
Proof.
  intros Hv. pose proof (db_level_range vel Hv). unfold amp_of.
  split; [apply Rpower_pos | apply Rle_Rpower; lra].
Qed.

Lemma bounded_samples f amp (t : list R) (B : Z) :
  0 <= amp -> amp * 32767 < IZR B -> (0 <= B <= int16_max)%Z ->
  forall v, v ∈ stereo (sine_wave_int (sine_wave f amp t)) -> (Z.abs v <= B)%Z.
Proof.
  intros Ha Hb HB v Hv. apply (proj1 (elem_of_stereo _ _)) in Hv.
  unfold sine_wave_int in Hv. apply list_elem_of_fmap in Hv as [s [-> Hs]].
  assert (- amp <= s <= amp) as Hsb.
  { unfold sine_wave in Hs. apply list_elem_of_fmap in Hs as [ti [-> _]].
    pose proof (abs_sin_le_1 (2 * PI * f * ti)). nra. }
  assert (- B <= trunc (s * 32767) <= B)%Z as Hr.
  { apply trunc_range; [lia |]. rewrite opp_IZR. lra. }
  unfold np_int16. rewrite wrap16_id; [lia |].
  unfold int16_min, int16_max in *. lia.
Qed.

(** ** The WAV writer *)

Lemma pack_h_ok v :
  (int16_min <= v <= int16_max)%Z ->
  pack_h v = Ok [byte_of_Z v; byte_of_Z (v / 256)].
Proof.
  intros [H1 H2]. unfold pack_h.
  destruct (Z.leb_spec int16_min v); [| lia].
  destruct (Z.leb_spec v int16_max); [reflexivity | lia].
Qed.

Lemma pack_H_ok v :
  (0 <= v < 2 ^ 16)%Z -> pack_H v = Ok [byte_of_Z v; byte_of_Z (v / 256)].
Proof.
  intros [H1 H2]. unfold pack_H.
  destruct (Z.leb_spec 0 v); [| lia].
  destruct (Z.ltb_spec v (2 ^ 16)); [reflexivity | lia].
Qed.

Lemma pack_L_ok v :
  (0 <= v < 2 ^ 32)%Z ->
  pack_L v = Ok [byte_of_Z v; byte_of_Z (v / 2 ^ 8);
                 byte_of_Z (v / 2 ^ 16); byte_of_Z (v / 2 ^ 24)].
Proof.
  intros [H1 H2]. unfold pack_L.
  destruct (Z.leb_spec 0 v); [| lia].
  destruct (Z.ltb_spec v (2 ^ 32)); [reflexivity | lia].
Qed.

Lemma map_result_pack_h data :
  Forall (fun v => int16_min <= v <= int16_max)%Z data ->
  exists frames, map_result pack_h data = Ok frames /\
                 length (concat frames) = (2 * length data)%nat.
Proof.
  induction 1 as [| v data Hv _ [frames [IH Hlen]]].
  - exists []. split; reflexivity.
  - eexists. cbn [map_result]. rewrite pack_h_ok by exact Hv. cbn [bind].
    rewrite IH. cbn [bind]. split; [reflexivity |].
    cbn [concat]. rewrite length_app, Hlen. cbn [length]. lia.
Qed.

Lemma wav_file_ok sr data :
  (0 < sr < 2 ^ 30)%Z ->
  Forall (fun v => int16_min <= v <= int16_max)%Z data ->
  (Z.of_nat (length data) < 2 ^ 30)%Z ->
  exists content, wav_file sr data = Ok content.
Proof.
  intros Hsr Hdata Hlen. unfold wav_file.
  destruct (Z.leb_spec sr 0); [lia |].
  destruct (map_result_pack_h data Hdata) as [frames [-> Hfr]]. cbn [bind].
  unfold wav_header. rewrite Hfr.
  rewrite (pack_L_ok (36 + _)) by lia. cbn [bind].
  rewrite (pack_L_ok 16) by lia. cbn [bind].
  rewrite (pack_H_ok 1) by lia. cbn [bind].
  rewrite (pack_H_ok 2) by lia. cbn [bind].
  rewrite (pack_L_ok sr) by lia. cbn [bind].
  rewrite (pack_L_ok (2 * sr * 2)) by lia. cbn [bind].
  rewrite (pack_H_ok (2 * 2)) by lia. cbn [bind].
  rewrite (pack_H_ok (2 * 8)) by lia. cbn [bind].
  rewrite (pack_L_ok (Z.of_nat _)) by lia. cbn [bind].
  eexists. reflexivity.
Qed.

(** ** One iteration of the driver *)

Lemma elem_of_triples tr : tr ∈ triples <-> in_bank tr.
Proof.
  destruct tr as [[note vel] sr]. unfold triples, in_bank, sample_rates.
  rewrite list_elem_of_bind. split.
  - intros [n [H Hn]]. apply list_elem_of_bind in H as [v [H Hv]].
    apply list_elem_of_bind in H as [s [H Hs]].
    apply list_elem_of_singleton in H. injection H as -> -> ->.
    apply elem_of_seqZ in Hn. apply elem_of_seqZ in Hv.
    rewrite !elem_of_cons in Hs. rewrite elem_of_nil in Hs. lia.
  - intros (Hn & Hv & Hs). exists note. split; [| apply elem_of_seqZ; lia].
    apply list_elem_of_bind. exists vel. split; [| apply elem_of_seqZ; lia].
    apply list_elem_of_bind. exists sr.
    split; [apply list_elem_of_singleton; reflexivity |].
    rewrite !elem_of_cons. tauto.
Qed.

Lemma sample_count_scaled (sr : Z) :
  (sr = 44100 \/ sr = 48000)%Z -> sample_count sr duration = (sr * 5)%Z.
Proof.
  intros H. unfold duration. apply (sample_count_IZR sr 5).
  destruct H; subst; reflexivity.
Qed.

Lemma bank_rate_ok sr :
  (sr = 44100 \/ sr = 48000)%Z ->
  (Z.abs sr < 2 ^ 1024)%Z /\ in_double_range (IZR sr * duration) /\
  (0 <= sample_count sr duration)%Z.
Proof.
  intros Hs. split; [destruct Hs; subst; reflexivity |]. split.
  - unfold duration. rewrite <- mult_IZR. apply in_double_range_IZR.
    destruct Hs; subst; reflexivity.
  - rewrite sample_count_scaled by exact Hs. lia.
Qed.

Lemma sample_data_ok note vel sr :
  in_bank (note, vel, sr) ->
  sample_data (note, vel, sr) =
    generate_sine_wave sr duration (freq_of note) (amp_of vel) /\
  exists data,
    generate_sine_wave sr duration (freq_of note) (amp_of vel) = Ok data /\
    Z.of_nat (length data) = (10 * sr)%Z /\
    (forall v, v ∈ data -> (Z.abs v <= 16423)%Z).
Proof.
  intros (Hn & Hv & Hs). split.
  - unfold sample_data. rewrite db_levels_ok. cbn [bind].
    rewrite midi_to_freq_ok by lia. cbn [bind].
    rewrite array_get_db_levels by exact Hv. cbn [bind].
    pose proof (db_level_range vel Hv).
    rewrite db_to_amp_ok by lra. reflexivity.
  - destruct (bank_rate_ok sr Hs) as (Hfin & Hrange & Hpos).
    eexists. split; [apply generate_sine_wave_ok; assumption |]. split.
    + rewrite length_generated, sample_count_scaled by exact Hs. lia.
    + apply bounded_samples.
      * left. apply Rpower_pos.
      * apply Rle_lt_trans with (Rpower 10 (-6 / 20) * 32767);
          [| apply amp_max_scaled].
        apply Rmult_le_compat_r; [lra |]. apply amp_of_range. exact Hv.
      * unfold int16_max. lia.
Qed.

Lemma sample_file_ok tr :
  in_bank tr -> exists content, sample_file tr = Ok content.
Proof.
  destruct tr as [[note vel] sr]. intros Hin.
  destruct (sample_data_ok note vel sr Hin) as [E (data & Hd & Hlen & Hb)].
  unfold sample_file. rewrite E, Hd. cbn [bind snd].
  destruct Hin as (_ & _ & Hs).
  apply wav_file_ok.
  - destruct Hs; subst; lia.
  - apply Forall_forall. intros v Hv. specialize (Hb v Hv).
    unfold int16_min, int16_max. lia.
  - destruct Hs; subst; lia.
Qed.

Lemma dict_get_rate_tags sr :
  (sr = 44100 \/ sr = 48000)%Z -> dict_get rate_tags sr = Ok (tag_of sr).
Proof. intros [-> | ->]; reflexivity. Qed.

Lemma write_sample_ok env dir note vel sr fs :
  in_bank (note, vel, sr) ->
  write_sample env dir note vel (freq_of note) (amp_of vel) sr fs =
    Ok (<[path_join env dir (file_name (note, vel, sr))
          := get_ok [] (sample_file (note, vel, sr))]> fs).
Proof.
  intros Hin. destruct (sample_file_ok _ Hin) as [content Hc].
  rewrite Hc. cbn [get_ok]. unfold sample_file in Hc.
  destruct (sample_data_ok note vel sr Hin) as [E (data & Hd & _)].
  rewrite E, Hd in Hc. cbn [bind snd] in Hc.
  unfold write_sample. rewrite Hd. cbn [bind].
  rewrite dict_get_rate_tags by apply Hin. cbn [bind].
  unfold save_wav_file. rewrite Hc. reflexivity.
Qed.

(** ** The loops *)

Lemma for_each_ok {A S : Type} (g : A -> S -> S) (xs : list A)
    (body : A -> S -> result S) :
  (forall x st, x ∈ xs -> body x st = Ok (g x st)) ->
  forall st, for_each xs body st = Ok (foldl (fun s x => g x s) st xs).
Proof.
  induction xs as [| x xs IH]; intros Hbody st; cbn [for_each foldl].
  - reflexivity.
  - rewrite Hbody by apply list_elem_of_here. cbn [bind].
    apply IH. intros y st' Hy. apply Hbody. apply list_elem_of_further. exact Hy.
Qed.

Lemma foldl_bind {A B C : Type} (f : A -> C -> A) (h : B -> list C)
    (l : list B) (a : A) :
  foldl f a (l ≫= h) = foldl (fun a x => foldl f a (h x)) a l.
Proof.
  revert a. induction l as [| x l IH]; intros a.
  - reflexivity.
  - rewrite bind_cons, foldl_app. cbn [foldl]. apply IH.
Qed.

(** A run never raises, and it performs exactly the writes of
    [write_all], in the order of [triples]. *)
Lemma main_ok env arg fs : main env arg fs = Ok (write_all env arg fs).
Proof.
  unfold main, write_all, writes, triples. rewrite db_levels_ok. cbn [bind].
  rewrite foldl_bind.
  apply (for_each_ok (fun note fs =>
    foldl (fun fs tr => <[file_path env arg tr := get_ok [] (sample_file tr)]> fs)
          fs (vel ← seqZ 0 8; sr ← sample_rates; [(note, vel, sr)]))).
  intros note fs1 Hnote. apply elem_of_seqZ in Hnote.
  rewrite midi_to_freq_ok by lia. cbn [bind].
  rewrite foldl_bind.
  apply (for_each_ok (fun vel fs =>
    foldl (fun fs tr => <[file_path env arg tr := get_ok [] (sample_file tr)]> fs)
          fs (sr ← sample_rates; [(note, vel, sr)]))).
  intros vel fs2 Hvel. apply elem_of_seqZ in Hvel.
  rewrite array_get_db_levels by lia. cbn [bind].
  pose proof (db_level_range vel ltac:(lia)) as Hdb.
  rewrite db_to_amp_ok by lra. cbn [bind].
  rewrite foldl_bind.
  apply (for_each_ok (fun sr fs =>
    foldl (fun fs tr => <[file_path env arg tr := get_ok [] (sample_file tr)]> fs)
          fs [(note, vel, sr)])).
  intros sr fs3 Hsr. cbn [foldl]. unfold file_path.
  apply write_sample_ok. unfold in_bank, sample_rates in *.
  rewrite !elem_of_cons, elem_of_nil in Hsr. lia.
Qed.

(** ** File names *)

Example file_name_a4 : file_name (69, 7, 44100)%Z = "m069-vel7-f44.wav"%string.
Proof. vm_compute. reflexivity. Qed.

Example file_name_a0 : file_name (21, 0, 48000)%Z = "m021-vel0-f48.wav"%string.
Proof. vm_compute. reflexivity. Qed.

Example parse_a4 : parse_filename "m069-vel7-f44.wav" = Some (69, 7, 44100)%Z.
Proof. vm_compute. reflexivity. Qed.

(** Every name of the bank reads back as its triple. *)
Lemma parse_file_name_all :
  Forall (fun tr => parse_filename (file_name tr) = Some tr) triples.
Proof. apply (bool_decide_unpack _). vm_compute. reflexivity. Qed.

Lemma NoDup_triples : NoDup triples.
Proof. apply (bool_decide_unpack _). vm_compute. reflexivity. Qed.

Lemma length_triples : length triples = 1408%nat.
Proof. vm_compute. reflexivity. Qed.

Lemma file_name_inj t1 t2 :
  in_bank t1 -> in_bank t2 -> file_name t1 = file_name t2 -> t1 = t2.
Proof.
  intros H1 H2 E. apply elem_of_triples in H1, H2.
  pose proof (proj1 (Forall_forall _ _) parse_file_name_all) as P.
  pose proof (P t1 H1) as P1. pose proof (P t2 H2) as P2.
  cbv beta in P1, P2. congruence.
Qed.

Lemma append_assoc (a b c : string) :
  ((a ++ b) ++ c)%string = (a ++ (b ++ c))%string.
Proof.
  induction a as [| x a IH]; [reflexivity |].
  change (String x ((a ++ b) ++ c) = String x (a ++ (b ++ c)))%string.
  f_equal. exact IH.
Qed.

Lemma append_inj_l (p s1 s2 : string) :
  (p ++ s1)%string = (p ++ s2)%string -> s1 = s2.
Proof.
  induction p as [| c p IH]; intros E; [exact E |].
  change (String c (p ++ s1) = String c (p ++ s2))%string in E.
  injection E as E. apply IH. exact E.
Qed.

(** [os.path.join] puts a prefix that depends on the directory only. *)
Lemma path_join_prefix env dir :
  exists prefix, forall file, path_join env dir file = (prefix ++ file)%string.
Proof.
  unfold path_join. destruct (last_char dir) as [c |].
  - destruct (is_windows env).
    + destruct (_ || _).
      * exists dir. reflexivity.
      * exists (dir ++ "\")%string. intros file.
        rewrite append_assoc. reflexivity.
    + destruct (Ascii.eqb c "/").
      * exists dir. reflexivity.
      * exists (dir ++ "/")%string. intros file.
        rewrite append_assoc. reflexivity.
  - exists ""%string. reflexivity.
Qed.

Lemma file_path_inj env arg t1 t2 :
  in_bank t1 -> in_bank t2 ->
  file_path env arg t1 = file_path env arg t2 -> t1 = t2.
Proof.
  intros H1 H2 E. unfold file_path in E.
  destruct (path_join_prefix env (resolve_output_dir env arg)) as [p Hp].
  rewrite !Hp in E. apply append_inj_l in E.
  apply file_name_inj; assumption.
Qed.

Lemma NoDup_file_names : NoDup (file_name <$> triples).
Proof.
  apply NoDup_fmap_2_strong; [| apply NoDup_triples].
  intros t1 t2 H1 H2. apply file_name_inj; apply elem_of_triples; assumption.
Qed.

Lemma NoDup_file_paths env arg : NoDup (file_path env arg <$> triples).
Proof.
  apply NoDup_fmap_2_strong; [| apply NoDup_triples].
  intros t1 t2 H1 H2. apply file_path_inj; apply elem_of_triples; assumption.
Qed.

(** ** Sequences of writes *)

Lemma writes_snoc {A : Type} (key : A -> string) val l x fs :
  writes key val (l ++ [x]) fs = <[key x := val x]> (writes key val l fs).
Proof. unfold writes. rewrite foldl_app. reflexivity. Qed.

Lemma lookup_writes_other {A : Type} (key : A -> string) val l fs k :
  k ∉ key <$> l -> writes key val l fs !! k = fs !! k.
Proof.
  induction l as [| x l IH] using rev_ind; intros Hk; [reflexivity |].
  rewrite fmap_app, not_elem_of_app in Hk. destruct Hk as [Hl Hx].
  rewrite writes_snoc, lookup_insert_ne; [apply IH; exact Hl |].
  intros <-. apply Hx. cbn. apply list_elem_of_here.
Qed.

Lemma lookup_writes {A : Type} (key : A -> string) val l fs x :
  NoDup (key <$> l) -> x ∈ l -> writes key val l fs !! key x = Some (val x).
Proof.
  induction l as [| y l IH] using rev_ind; intros Hnd Hx.
  - apply elem_of_nil in Hx. contradiction.
  - rewrite fmap_app in Hnd. apply NoDup_app in Hnd as (Hl & Hdisj & _).
    rewrite writes_snoc. apply elem_of_app in Hx as [Hx | Hx].
    + rewrite lookup_insert_ne; [apply IH; assumption |].
      intros E. apply (Hdisj (key x)).
      * apply list_elem_of_fmap. exists x. split; [reflexivity | exact Hx].
      * rewrite <- E. cbn. apply list_elem_of_here.
    + apply list_elem_of_singleton in Hx. subst y. apply lookup_insert_eq.
Qed.

Lemma dom_writes {A : Type} (key : A -> string) val l fs :
  dom (writes key val l fs) = dom fs ∪ list_to_set (key <$> l).
Proof.
  induction l as [| x l IH] using rev_ind.
  - cbn. rewrite union_empty_r_L. reflexivity.
  - rewrite writes_snoc, dom_insert_L, IH, fmap_app, list_to_set_app_L.
    cbn. rewrite union_empty_r_L, (comm_L (∪) {[key x]}), (assoc_L (∪)).
    reflexivity.
Qed.

Lemma writes_twice {A : Type} (key : A -> string) val l fs :
  NoDup (key <$> l) ->
  writes key val l (writes key val l fs) = writes key val l fs.
Proof.
  intros Hnd. apply map_eq. intros k.
  destruct (decide (k ∈ key <$> l)) as [Hin | Hout].
  - apply list_elem_of_fmap in Hin as [x [-> Hx]].
    rewrite !lookup_writes by assumption. reflexivity.
  - rewrite lookup_writes_other by exact Hout. reflexivity.
Qed.

Lemma lookup_write_all env arg fs tr content :
  in_bank tr -> sample_file tr = Ok content ->
  write_all env arg fs !! file_path env arg tr = Some content.
Proof.
  intros Hin Hc. unfold write_all.
  rewrite lookup_writes, Hc;
    [reflexivity | apply NoDup_file_paths | apply elem_of_triples; exact Hin].
Qed.

(** ** The bank: claims C5, C7 and C10 *)

(** C5.  The file name [m{note:03d}-vel{tier}-f{rateTag}.wav] is
    injective on notes 21..108, tiers 0..7 and rates 44100 (tag 44) and
    48000 (tag 48); the loops visit exactly these triples, none skipped;
    a run on an empty output directory returns and leaves exactly
    88 * 8 * 2 = 1408 files, one per triple, distinctly named after the
    convention, e.g. [m069-vel7-f44.wav]. *)
Theorem bank_file_names (env : environ) (arg : option string) :
  (forall t1 t2, in_bank t1 -> in_bank t2 ->
     file_name t1 = file_name t2 -> t1 = t2) /\
  (forall tr, in_bank tr <-> tr ∈ triples) /\
  NoDup (file_name <$> triples) /\
  length triples = (88 * 8 * 2)%nat /\
  (exists fs,
     main env arg ∅ = Ok fs /\
     size fs = 1408%nat /\
     dom fs = list_to_set (file_path env arg <$> triples) /\
     forall tr, in_bank tr ->
       exists content, sample_file tr = Ok content /\
                       fs !! file_path env arg tr = Some content) /\
  (forall note vel sr,
     file_name (note, vel, sr) =
     ("m" ++ format_03d note ++ "-vel" ++ str vel
          ++ "-f" ++ tag_of sr ++ ".wav")%string) /\
  tag_of 44100 = "44"%string /\ tag_of 48000 = "48"%string /\
  file_name (69, 7, 44100)%Z = "m069-vel7-f44.wav"%string.
Proof.
  split; [apply file_name_inj |].
  split; [intros tr; symmetry; apply elem_of_triples |].
  split; [apply NoDup_file_names |].
  split; [apply length_triples |].
  split.
  - exists (write_all env arg ∅). split; [apply main_ok |].
    assert (dom (write_all env arg ∅)
            = list_to_set (file_path env arg <$> triples)) as Hdom.
    { unfold write_all. rewrite dom_writes, dom_empty_L.
      apply union_empty_l_L. }
    split; [| split; [exact Hdom |]].
    + rewrite <- size_dom, Hdom, size_list_to_set by apply NoDup_file_paths.
      rewrite length_fmap. apply length_triples.
    + intros tr Hin. destruct (sample_file_ok tr Hin) as [content Hc].
      exists content. split; [exact Hc |].
      apply lookup_write_all; assumption.
  - split; [intros note vel sr; reflexivity |].
    split; [reflexivity |]. split; [reflexivity |].
    vm_compute. reflexivity.
Qed.

(** C7.  The generator is deterministic: from any two initial states of
    the file system, two runs with the same arguments return, and for
    every (note, tier, rate) the two files hold the same bytes, which are
    [sample_file] of the triple alone; a second run over the result of
    the first changes nothing. *)
Theorem main_deterministic (env : environ) (arg : option string)
    (fs1 fs2 : gmap string (list byte)) :
  exists out1 out2,
    main env arg fs1 = Ok out1 /\
    main env arg fs2 = Ok out2 /\
    (forall tr, in_bank tr ->
       exists content,
         sample_file tr = Ok content /\
         out1 !! file_path env arg tr = Some content /\
         out2 !! file_path env arg tr = Some content) /\
    main env arg out1 = Ok out1.
Proof.
  exists (write_all env arg fs1), (write_all env arg fs2).
  split; [apply main_ok |]. split; [apply main_ok |]. split.
  - intros tr Hin. destruct (sample_file_ok tr Hin) as [content Hc].
    exists content. split; [exact Hc |].
    split; apply lookup_write_all; assumption.
  - rewrite main_ok. f_equal. unfold write_all.
    apply writes_twice. apply NoDup_file_paths.
Qed.

(** C10.  In a run, for every note 21..108, tier 0..7 and rate, the
    level is the tier's point of the 8 evenly spaced levels from -30 to
    -6 dB, the amplitude passed to [generate_sine_wave] is [db_to_amp] of
    it and at most [10^(-6/20)], which is about 0.5012; no scaled sample
    leaves the int16 range, so the cast never wraps, and every sample
    value of the file written has magnitude at most 16423. *)
Theorem driver_samples_bounded (env : environ) (arg : option string)
    (fs : gmap string (list byte)) (note vel sr : Z) :
  (21 <= note <= 108)%Z -> (0 <= vel <= 7)%Z ->
  (sr = 44100 \/ sr = 48000)%Z ->
  exists db_levels db freq amp t data content out,
    linspace (-30) (-6) 8 true = Ok db_levels /\
    array_get db_levels vel = Ok db /\
    db = -30 + IZR vel * (24 / 7) /\
    midi_to_freq note = Ok freq /\
    db_to_amp db = Ok amp /\
    0 < amp <= Rpower 10 (-6 / 20) /\
    0.5011 < Rpower 10 (-6 / 20) < 0.5012 /\
    sample_times sr duration = Ok t /\
    generate_sine_wave sr duration freq amp = Ok data /\
    (forall s, s ∈ sine_wave freq amp t ->
       (int16_min <= trunc (s * 32767) <= int16_max)%Z /\
       np_int16 (s * 32767) = trunc (s * 32767)) /\
    (forall v, v ∈ data -> (Z.abs v <= 16423)%Z) /\
    wav_file sr data = Ok content /\
    main env arg fs = Ok out /\
    out !! file_path env arg (note, vel, sr) = Some content.
Proof.
  intros Hn Hv Hs.
  assert (in_bank (note, vel, sr)) as Hin by (unfold in_bank; auto).
  destruct (sample_data_ok note vel sr Hin) as [E (data & Hd & Hlen & Hb)].
  destruct (sample_file_ok _ Hin) as [content Hc].
  pose proof (amp_of_range vel Hv) as Ha.
  pose proof amp_max_approx as Hm.
  pose proof (db_level_range vel Hv) as Hdb.
  destruct (bank_rate_ok sr Hs) as (Hfin & Hrange & Hpos).
  exists (map db_level (seqZ 0 8)), (db_level vel), (freq_of note), (amp_of vel),
    (time_grid duration (sample_count sr duration)), data, content,
    (write_all env arg fs).
  split; [apply db_levels_ok |].
  split; [apply array_get_db_levels; exact Hv |].
  split; [apply db_level_even; exact Hv |].
  split; [apply midi_to_freq_ok; lia |].
  split; [apply db_to_amp_ok; lra |].
  split; [exact Ha |]. split; [exact Hm |].
  split; [apply sample_times_ok; assumption |].
  split; [exact Hd |].
  split; [apply no_wrap_samples; lra |].
  split; [exact Hb |].
  split; [unfold sample_file in Hc; rewrite E, Hd in Hc; exact Hc |].
  split; [apply main_ok |].
  apply lookup_write_all; assumption.
Qed.

Lemma driver_samples_bounded_witness :
  (21 <= 69 <= 108)%Z /\ (0 <= 7 <= 7)%Z /\
  (44100 = 44100 \/ 44100 = 48000)%Z /\
  exists amp data,
    db_to_amp (-30 + IZR 7 * (24 / 7)) = Ok amp /\
    0 < amp <= Rpower 10 (-6 / 20) /\
    (forall v, v ∈ data -> (Z.abs v <= 16423)%Z) /\
    exists content out,
      wav_file 44100 data = Ok content /\
      main {| platform_system := "Linux"; home_dir := Some "/home/user"%string |}
           None ∅ = Ok out /\
      out !! "/home/user/Soundbank/IthacaPlayer/instrument/m069-vel7-f44.wav"%string
        = Some content.
Proof.
  assert (21 <= 69 <= 108)%Z as H1 by lia.
  assert (0 <= 7 <= 7)%Z as H2 by lia.
  assert (44100 = 44100 \/ 44100 = 48000)%Z as H3 by (left; reflexivity).
  split; [exact H1 |]. split; [exact H2 |]. split; [exact H3 |].
  destruct (driver_samples_bounded
              {| platform_system := "Linux"; home_dir := Some "/home/user"%string |}
              None ∅ 69 7 44100 H1 H2 H3)
    as (dbl & db & freq & amp & t & data & content & out
        & _ & _ & Edb & _ & Hamp & Ha & _ & _ & _ & _ & Hb & Hw & Hm & Hl).
  exists amp, data. rewrite <- Edb.
  split; [exact Hamp |]. split; [exact Ha |]. split; [exact Hb |].
  exists content, out. split; [exact Hw |]. split; [exact Hm |]. exact Hl.
Defined.

(** ** The default output directory: claim C8 *)

Lemma is_windows_true env :
  platform_system env = "Windows"%string <-> is_windows env = true.
Proof. unfold is_windows. symmetry. apply String.eqb_eq. Qed.

(** C8.  Without [--output-dir] the output directory is the default one:
    on Windows the literal [C:\\SoundBanks\\IthacaPlayer\\instrument]
    (written with doubled backslashes), whose components are [C:],
    [SoundBanks], [IthacaPlayer], [instrument]; on any other platform
    [~/Soundbank/IthacaPlayer/instrument] with [~] replaced by the user's
    home directory. *)
Theorem default_output_dir_spec (env : environ) :
  resolve_output_dir env None = get_default_output_dir env /\
  (platform_system env = "Windows"%string ->
     get_default_output_dir env
       = "C:\\SoundBanks\\IthacaPlayer\\instrument"%string /\
     path_components "\" (get_default_output_dir env) =
       ["C:"; "SoundBanks"; "IthacaPlayer"; "instrument"]%string) /\
  (platform_system env <> "Windows"%string ->
     forall h, home_dir env = Some h ->
       get_default_output_dir env =
         (rstrip_slash h ++ "/Soundbank/IthacaPlayer/instrument")%string).
Proof.
  split; [reflexivity |]. unfold get_default_output_dir. split.
  - intros Hw. apply is_windows_true in Hw. rewrite Hw.
    split; [reflexivity | vm_compute; reflexivity].
  - intros Hw h Hh.
    destruct (is_windows env) eqn:E; [apply is_windows_true in E; contradiction |].
    unfold expanduser. rewrite Hh.
    change (String.eqb "/Soundbank/IthacaPlayer/instrument" "" ||
            String.prefix "/" "/Soundbank/IthacaPlayer/instrument") with true.
    cbv iota. destruct (rstrip_slash h); reflexivity.
Qed.

Example default_output_dir_linux :
  resolve_output_dir
    {| platform_system := "Linux"; home_dir := Some "/home/user/"%string |} None
  = "/home/user/Soundbank/IthacaPlayer/instrument"%string.
Proof. vm_compute. reflexivity. Qed.

(* ================================================================== *)
(** * Part IV: further properties of the code *)
(* ================================================================== *)

(** ** The conversions *)

(** X1.  An octave (12 notes) up doubles the frequency, for the notes
    [-12000 <= n] with [n + 12 <= 12251], where both frequencies are
    finite doubles of the normal range. *)
Theorem midi_to_freq_octave (n : Z) :
  (-12000 <= n)%Z -> (n + 12 <= 12251)%Z ->
  exists f, midi_to_freq n = Ok f /\ midi_to_freq (n + 12) = Ok (2 * f) /\
            in_double_range (2 * f).
Proof.
  intros Hlo Hhi. exists (freq_of n).
  assert (freq_of (n + 12) = 2 * freq_of n) as E.
  { rewrite freq_of_step. replace (IZR 12 / 12) with 1 by lra.
    rewrite Rpower_1 by lra. ring. }
  rewrite !midi_to_freq_ok by lia. split; [reflexivity |].
  split; [f_equal; exact E |].
  rewrite <- E. unfold in_double_range. rewrite Rabs_pos_eq.
  - apply freq_of_finite. exact Hhi.
  - unfold freq_of. pose proof (Rpower_pos 2 (IZR (n + 12 - 69) / 12)). lra.
Qed.

Lemma midi_to_freq_octave_witness :
  (-12000 <= 57)%Z /\ (57 + 12 <= 12251)%Z /\
  exists f, midi_to_freq 57 = Ok f /\ midi_to_freq (57 + 12) = Ok (2 * f).
Proof.
  assert (-12000 <= 57)%Z as H1 by discriminate.
  assert (57 + 12 <= 12251)%Z as H2 by discriminate.
  split; [exact H1 |]. split; [exact H2 |].
  destruct (midi_to_freq_octave 57 H1 H2) as (f & E1 & E2 & _).
  exists f. split; [exact E1 | exact E2].
Defined.

(** X2.  Higher notes have strictly higher, positive and finite
    frequencies, for the notes from -12000 to 12251. *)
Theorem midi_to_freq_increasing (n m : Z) :
  (-12000 <= n)%Z -> (n < m)%Z -> (m <= 12251)%Z ->
  exists f g, midi_to_freq n = Ok f /\ midi_to_freq m = Ok g /\
              0 < f < g /\ g < dbl_limit.
Proof.
  intros Hlo Hnm Hhi. exists (freq_of n), (freq_of m).
  rewrite !midi_to_freq_ok by lia. split; [reflexivity |].
  split; [reflexivity |]. split; [| apply freq_of_finite; exact Hhi].
  split; [| apply freq_of_lt; exact Hnm].
  unfold freq_of. apply Rmult_lt_0_compat; [lra | apply Rpower_pos].
Qed.

Lemma midi_to_freq_increasing_witness :
  (-12000 <= 21)%Z /\ (21 < 108)%Z /\ (108 <= 12251)%Z /\
  exists f g, midi_to_freq 21 = Ok f /\ midi_to_freq 108 = Ok g /\ 0 < f < g.
Proof.
  assert (-12000 <= 21)%Z as H1 by discriminate.
  assert (21 < 108)%Z as H2 by reflexivity.
  assert (108 <= 12251)%Z as H3 by discriminate.
  split; [exact H1 |]. split; [exact H2 |]. split; [exact H3 |].
  destruct (midi_to_freq_increasing 21 108 H1 H2 H3) as (f & g & E1 & E2 & H & _).
  exists f, g. split; [exact E1 |]. split; [exact E2 | exact H].
Defined.

(** X3.  Every note from 12357 up, and every note at or below [69 - 2^1024],
    makes [midi_to_freq] raise [OverflowError]. *)
Theorem midi_to_freq_overflow (n : Z) :
  (12357 <= n \/ n <= 69 - 2 ^ 1024)%Z ->
  midi_to_freq n = Raise OverflowError.
Proof.
  intros H. unfold midi_to_freq, float_of_int.
  destruct (is_finite (IZR (n - 69))) eqn:E; [| reflexivity].
  cbn [bind]. destruct H as [H | H].
  - rewrite py_pow_overflow; [reflexivity |].
    rewrite dbl_limit_Rpower. apply Rle_Rpower; [lra |].
    assert (12288 <= IZR (n - 69)) by (apply IZR_le; lia). lra.
  - exfalso. rewrite is_finite_false in E; [discriminate |].
    rewrite dbl_limit_IZR, <- abs_IZR. apply IZR_le. lia.
Qed.

Lemma midi_to_freq_overflow_witness :
  (12357 <= 20000 \/ 20000 <= 69 - 2 ^ 1024)%Z /\
  midi_to_freq 20000 = Raise OverflowError.
Proof.
  assert (12357 <= 20000 \/ 20000 <= 69 - 2 ^ 1024)%Z as H
    by (left; discriminate).
  split; [exact H |]. exact (midi_to_freq_overflow 20000 H).
Defined.

(** X22.  For the notes 12252 to 12356 [midi_to_freq] does not raise:
    the power [2 ** x] is a finite double, and the product [440.0 * p]
    is at or beyond [2^1024], which is an infinity in the code. *)
Theorem midi_to_freq_infinite (n : Z) :
  (12252 <= n <= 12356)%Z ->
  exists p x,
    py_pow 2 (IZR (n - 69) / 12) = Ok p /\ p < dbl_limit /\
    midi_to_freq n = Ok x /\ x = 440 * p /\ dbl_limit <= x.
Proof.
  intros Hn. exists (Rpower 2 (IZR (n - 69) / 12)), (freq_of n).
  assert (Rpower 2 (IZR (n - 69) / 12) < dbl_limit) as Hp.
  { rewrite dbl_limit_Rpower. apply Rpower_lt; [lra |].
    assert (IZR (n - 69) < 12288) by (apply IZR_lt; lia). lra. }
  split; [apply py_pow_ok; exact Hp |]. split; [exact Hp |].
  split; [apply midi_to_freq_ok; lia |]. split; [reflexivity |].
  apply freq_of_infinite. lia.
Qed.

Lemma midi_to_freq_infinite_witness :
  (12252 <= 12300 <= 12356)%Z /\
  exists x, midi_to_freq 12300 = Ok x /\ dbl_limit <= x.
Proof.
  assert (12252 <= 12300 <= 12356)%Z as H by (split; discriminate).
  split; [exact H |].
  destruct (midi_to_freq_infinite 12300 H) as (p & x & _ & _ & E & _ & Hx).
  exists x. split; [exact E | exact Hx].
Defined.

(** X4.  Decibels add where amplitudes multiply, and 20 dB more is ten
    times the amplitude, for levels between -6000 and 6000 dB, where the
    amplitudes are finite doubles of the normal range. *)
Theorem db_to_amp_add (db1 db2 : R) :
  -6000 <= db1 <= 6000 -> -6000 <= db2 <= 6000 ->
  -6000 <= db1 + db2 <= 6000 ->
  exists a1 a2,
    db_to_amp db1 = Ok a1 /\ db_to_amp db2 = Ok a2 /\
    db_to_amp (db1 + db2) = Ok (a1 * a2) /\
    (db2 = 20 -> db_to_amp (db1 + db2) = Ok (10 * a1)).
Proof.
  intros H1 H2 H12. exists (Rpower 10 (db1 / 20)), (Rpower 10 (db2 / 20)).
  rewrite !db_to_amp_ok by lra.
  split; [reflexivity |]. split; [reflexivity |].
  assert (Rpower 10 ((db1 + db2) / 20)
          = Rpower 10 (db1 / 20) * Rpower 10 (db2 / 20)) as E.
  { rewrite <- Rpower_plus. f_equal. lra. }
  split; [rewrite E; reflexivity |].
  intros ->. rewrite E. f_equal.
  replace (20 / 20) with 1 by lra. rewrite Rpower_1 by lra. ring.
Qed.

Lemma db_to_amp_add_witness :
  -6000 <= -26 <= 6000 /\ -6000 <= 20 <= 6000 /\ -6000 <= -26 + 20 <= 6000 /\
  exists a1, db_to_amp (-26) = Ok a1 /\ db_to_amp (-26 + 20) = Ok (10 * a1).
Proof.
  assert (-6000 <= -26 <= 6000) as H1 by lra.
  assert (-6000 <= 20 <= 6000) as H2 by lra.
  assert (-6000 <= -26 + 20 <= 6000) as H3 by lra.
  split; [exact H1 |]. split; [exact H2 |]. split; [exact H3 |].
  destruct (db_to_amp_add (-26) 20 H1 H2 H3) as (a1 & a2 & E1 & _ & _ & E).
  exists a1. split; [exact E1 | exact (E eq_refl)].
Defined.

(** ** Packing and unpacking bytes *)

Lemma Z_of_byte_of_Z z : Z_of_byte (byte_of_Z z) = (z mod 256)%Z.
Proof.
  unfold Z_of_byte, byte_of_Z.
  pose proof (Z.mod_pos_bound z 256 ltac:(lia)) as Hb.
  destruct (Byte.of_N (Z.to_N (z mod 256))) as [b |] eqn:E.
  - apply Byte.to_of_N in E. rewrite E. lia.
  - apply Byte.of_N_None_iff in E. lia.
Qed.

Lemma unpack_H_pack v :
  (0 <= v < 2 ^ 16)%Z -> unpack_H [byte_of_Z v; byte_of_Z (v / 256)] = Some v.
Proof.
  intros H. change (2 ^ 16)%Z with 65536%Z in H.
  unfold unpack_H. rewrite !Z_of_byte_of_Z. f_equal.
  Z.div_mod_to_equations. lia.
Qed.

Lemma unpack_h_pack v :
  (int16_min <= v <= int16_max)%Z ->
  unpack_h [byte_of_Z v; byte_of_Z (v / 256)] = Some v.
Proof.
  unfold int16_min, int16_max. intros H. unfold unpack_h, unpack_H.
  rewrite !Z_of_byte_of_Z. f_equal.
  destruct (Z.ltb_spec (v mod 256 + 256 * ((v / 256) mod 256)) 32768);
    Z.div_mod_to_equations; lia.
Qed.

Lemma unpack_L_pack v :
  (0 <= v < 2 ^ 32)%Z ->
  unpack_L [byte_of_Z v; byte_of_Z (v / 2 ^ 8);
            byte_of_Z (v / 2 ^ 16); byte_of_Z (v / 2 ^ 24)] = Some v.
Proof.
  intros H. change (2 ^ 32)%Z with 4294967296%Z in H.
  unfold unpack_L. rewrite !Z_of_byte_of_Z. f_equal.
  change (2 ^ 8)%Z with 256%Z. change (2 ^ 16)%Z with 65536%Z.
  change (2 ^ 24)%Z with 16777216%Z. Z.div_mod_to_equations. lia.
Qed.

Lemma pack_h_inv v f :
  pack_h v = Ok f ->
  (int16_min <= v <= int16_max)%Z /\ f = [byte_of_Z v; byte_of_Z (v / 256)].
Proof.
  unfold pack_h. destruct (Z.leb_spec int16_min v); [| discriminate].
  destruct (Z.leb_spec v int16_max); [| discriminate].
  cbn. intros [= <-]. split; [lia | reflexivity].
Qed.

Lemma pack_H_inv v f :
  pack_H v = Ok f ->
  (0 <= v < 2 ^ 16)%Z /\ f = [byte_of_Z v; byte_of_Z (v / 256)].
Proof.
  unfold pack_H. destruct (Z.leb_spec 0 v); [| discriminate].
  destruct (Z.ltb_spec v (2 ^ 16)); [| discriminate].
  cbn. intros [= <-]. split; [lia | reflexivity].
Qed.

Lemma pack_L_inv v f :
  pack_L v = Ok f ->
  (0 <= v < 2 ^ 32)%Z /\
  f = [byte_of_Z v; byte_of_Z (v / 2 ^ 8);
       byte_of_Z (v / 2 ^ 16); byte_of_Z (v / 2 ^ 24)].
Proof.
  unfold pack_L. destruct (Z.leb_spec 0 v); [| discriminate].
  destruct (Z.ltb_spec v (2 ^ 32)); [| discriminate].
  cbn. intros [= <-]. split; [lia | reflexivity].
Qed.

Lemma bind_ok_inv {A B : Type} (r : result A) (k : A -> result B) b :
  bind r k = Ok b -> exists a, r = Ok a /\ k a = Ok b.
Proof. destruct r as [a | e]; cbn; [eauto | discriminate]. Qed.

Lemma map_result_pack_h_inv data frames :
  map_result pack_h data = Ok frames ->
  Forall (fun v => int16_min <= v <= int16_max)%Z data /\
  frames = map (fun v => [byte_of_Z v; byte_of_Z (v / 256)]) data.
Proof.
  revert frames. induction data as [| v data IH]; intros frames H.
  - cbn in H. injection H as <-. split; [constructor | reflexivity].
  - cbn [map_result] in H.
    apply bind_ok_inv in H as (f & Hf & H).
    apply bind_ok_inv in H as (fs & Hfs & H). injection H as <-.
    apply pack_h_inv in Hf as [Hv ->]. destruct (IH fs Hfs) as [Hall ->].
    split; [constructor; assumption | reflexivity].
Qed.

Lemma unpack_frames_pack data :
  Forall (fun v => int16_min <= v <= int16_max)%Z data ->
  unpack_frames
    (concat (map (fun v => [byte_of_Z v; byte_of_Z (v / 256)]) data))
  = Some data.
Proof.
  induction 1 as [| v data Hv _ IH]; [reflexivity |].
  cbn [map concat app unpack_frames].
  rewrite unpack_h_pack by exact Hv. rewrite IH. reflexivity.
Qed.

Lemma length_packed data :
  length (concat (map (fun v => [byte_of_Z v; byte_of_Z (v / 256)]) data))
  = (2 * length data)%nat.
Proof. induction data as [| v data IH]; cbn [map concat app length]; lia. Qed.

Lemma take_magic_ok s (a b c d : byte) rest :
  is_magic s [a; b; c; d] = true ->
  take_magic s (a :: b :: c :: d :: rest) = Some rest.
Proof.
  intros H. unfold take_magic.
  change (take 4 (a :: b :: c :: d :: rest)) with [a; b; c; d].
  rewrite H. reflexivity.
Qed.

Lemma take_L_ok v rest :
  (0 <= v < 2 ^ 32)%Z ->
  take_L (byte_of_Z v :: byte_of_Z (v / 2 ^ 8) :: byte_of_Z (v / 2 ^ 16)
          :: byte_of_Z (v / 2 ^ 24) :: rest)
  = Some (v, rest).
Proof.
  intros H. unfold take_L.
  change (take 4 (?a :: ?b :: ?c :: ?d :: rest)) with [a; b; c; d].
  rewrite unpack_L_pack by exact H. reflexivity.
Qed.

Lemma take_H_ok v rest :
  (0 <= v < 2 ^ 16)%Z ->
  take_H (byte_of_Z v :: byte_of_Z (v / 256) :: rest) = Some (v, rest).
Proof.
  intros H. unfold take_H.
  change (take 2 (?a :: ?b :: rest)) with [a; b].
  rewrite unpack_H_pack by exact H. reflexivity.
Qed.

Lemma wav_file_read_back sr data content :
  wav_file sr data = Ok content ->
  length content = (44 + 2 * length data)%nat /\
  read_wav content =
    Some {| wav_channels := 2; wav_sampwidth := 2;
            wav_framerate := sr; wav_samples := whole_frames data |}.
Proof.
  unfold wav_file. destruct (Z.leb_spec sr 0) as [| Hsr]; [discriminate |].
  intros H. apply bind_ok_inv in H as (frames & Hfr & H).
  apply map_result_pack_h_inv in Hfr as [Hall ->].
  apply bind_ok_inv in H as (header & Hh & H). injection H as <-.
  unfold wav_header in Hh.
  apply bind_ok_inv in Hh as (x1 & H1 & Hh). apply pack_L_inv in H1 as [R1 ->].
  apply bind_ok_inv in Hh as (x2 & H2 & Hh). apply pack_L_inv in H2 as [R2 ->].
  apply bind_ok_inv in Hh as (x3 & H3 & Hh). apply pack_H_inv in H3 as [R3 ->].
  apply bind_ok_inv in Hh as (x4 & H4 & Hh). apply pack_H_inv in H4 as [R4 ->].
  apply bind_ok_inv in Hh as (x5 & H5 & Hh). apply pack_L_inv in H5 as [R5 ->].
  apply bind_ok_inv in Hh as (x6 & H6 & Hh). apply pack_L_inv in H6 as [R6 ->].
  apply bind_ok_inv in Hh as (x7 & H7 & Hh). apply pack_H_inv in H7 as [R7 ->].
  apply bind_ok_inv in Hh as (x8 & H8 & Hh). apply pack_H_inv in H8 as [R8 ->].
  apply bind_ok_inv in Hh as (x9 & H9 & Hh). apply pack_L_inv in H9 as [R9 ->].
  injection Hh as <-.
  set (body := concat (map (fun v => [byte_of_Z v; byte_of_Z (v / 256)]) data))
    in *.
  split.
  - rewrite length_app. unfold body. rewrite length_packed. reflexivity.
  - cbn [app]. unfold read_wav.
    rewrite take_magic_ok by reflexivity. cbn [mbind option_bind].
    rewrite take_L_ok by exact R1. cbn [mbind option_bind].
    rewrite take_magic_ok by reflexivity. cbn [mbind option_bind].
    rewrite take_magic_ok by reflexivity. cbn [mbind option_bind].
    rewrite take_L_ok by exact R2. cbn [mbind option_bind].
    rewrite take_H_ok by exact R3. cbn [mbind option_bind].
    rewrite take_H_ok by exact R4. cbn [mbind option_bind].
    rewrite take_L_ok by exact R5. cbn [mbind option_bind].
    rewrite take_L_ok by exact R6. cbn [mbind option_bind].
    rewrite take_H_ok by exact R7. cbn [mbind option_bind].
    rewrite take_H_ok by exact R8. cbn [mbind option_bind].
    rewrite take_magic_ok by reflexivity. cbn [mbind option_bind].
    rewrite take_L_ok by exact R9. cbn [mbind option_bind].
    replace (2 * sr * 2)%Z with (sr * (2 * 2))%Z by lia.
    rewrite !Z.eqb_refl. change (1 <=? 2)%Z with true. cbn [andb].
    unfold body. rewrite unpack_frames_pack by exact Hall.
    cbn [mbind option_bind]. rewrite length_packed. unfold whole_frames.
    do 3 f_equal. rewrite Nat2Z.inj_mul. change (Z.of_nat 2) with 2%Z.
    change (2 * 2)%Z with 4%Z.
    assert (2 * Z.of_nat (length data) / 4 = Z.of_nat (length data) / 2)%Z as ->
      by (Z.div_mod_to_equations; lia).
    reflexivity.
Qed.

Lemma whole_frames_even (data : list Z) :
  Nat.even (length data) = true -> whole_frames data = data.
Proof.
  intros H. apply Nat.even_spec in H as [k Hk]. unfold whole_frames.
  rewrite Hk, Nat2Z.inj_mul. change (Z.of_nat 2) with 2%Z.
  rewrite (Z.mul_comm 2), Z.div_mul by lia.
  rewrite <- Nat2Z.inj_mul with (m := 2%nat), Nat2Z.id.
  rewrite <- (Nat.mul_comm 2), <- Hk. apply firstn_all.
Qed.

Lemma even_length_stereo (a : list Z) : Nat.even (length (stereo a)) = true.
Proof. rewrite length_stereo. apply Nat.even_spec. exists (length a). reflexivity. Qed.

(** ** The synthesizer *)

Lemma trunc_opp x : trunc (- x) = (- trunc x)%Z.
Proof.
  destruct (Rtotal_order x 0) as [H | [-> | H]].
  - rewrite (trunc_nonneg (- x)) by lra. rewrite (trunc_neg x) by exact H.
    unfold Zceil. lia.
  - rewrite Ropp_0. change 0 with (IZR 0). rewrite trunc_IZR. reflexivity.
  - rewrite (trunc_neg (- x)) by lra. rewrite (trunc_nonneg x) by lra.
    apply ZceilN.
Qed.

Lemma trunc_le x y : x <= y -> (trunc x <= trunc y)%Z.
Proof.
  intros H. destruct (Rle_dec 0 x) as [Hx | Hx].
  - rewrite !trunc_nonneg by lra. apply Zfloor_le. exact H.
  - destruct (Rle_dec 0 y) as [Hy | Hy].
    + pose proof (proj2 (trunc_sign x) ltac:(lra)).
      pose proof (proj1 (trunc_sign y) Hy). lia.
    + rewrite !trunc_neg by lra. unfold Zceil.
      assert (Zfloor (- y) <= Zfloor (- x))%Z by (apply Zfloor_le; lra). lia.
Qed.

Lemma stereo_fmap (g : Z -> Z) (a : list Z) : stereo (g <$> a) = g <$> stereo a.
Proof. induction a as [| v a IH]; cbn; [reflexivity | rewrite IH; reflexivity]. Qed.

(** X7.  [np.linspace] refuses a negative count: a call with
    [sr * dur <= -1] raises [ValueError]. *)
Theorem generate_sine_wave_value_error (sr : Z) (dur f a : R) :
  (Z.abs sr < 2 ^ 1024)%Z -> in_double_range (IZR sr * dur) ->
  IZR sr * dur <= -1 ->
  generate_sine_wave sr dur f a = Raise ValueError.
Proof.
  intros Hsr Hfin Hneg. unfold generate_sine_wave.
  rewrite sample_times_negative; [reflexivity | exact Hsr | exact Hfin |].
  apply sample_count_negative. exact Hneg.
Qed.

Lemma generate_sine_wave_value_error_witness :
  (Z.abs 44100 < 2 ^ 1024)%Z /\ in_double_range (IZR 44100 * -5) /\
  IZR 44100 * -5 <= -1 /\
  generate_sine_wave 44100 (-5) 440 (1 / 2) = Raise ValueError.
Proof.
  assert (Z.abs 44100 < 2 ^ 1024)%Z as H1 by reflexivity.
  assert (in_double_range (IZR 44100 * -5)) as H2.
  { rewrite <- mult_IZR. apply in_double_range_IZR. reflexivity. }
  assert (IZR 44100 * -5 <= -1) as H3 by lra.
  split; [exact H1 |]. split; [exact H2 |]. split; [exact H3 |].
  exact (generate_sine_wave_value_error 44100 (-5) 440 (1 / 2) H1 H2 H3).
Defined.

(** X8.  A call whose product [sr * dur], as the code computes it in
    double precision, lies strictly between -1 and 1 returns the empty
    sequence; this includes a zero duration and a zero sample rate. *)
Theorem generate_sine_wave_empty (sr : Z) (dur f a : R) :
  (Z.abs sr < 2 ^ 1024)%Z -> in_double_range (IZR sr * dur) ->
  -1 < float_mul (IZR sr) dur < 1 ->
  generate_sine_wave sr dur f a = Ok [].
Proof.
  intros Hsr Hfin Hx.
  assert (sample_count sr dur = 0%Z) as E.
  { unfold sample_count. destruct (Rle_dec 0 (float_mul (IZR sr) dur)).
    - rewrite trunc_nonneg by assumption. apply Zfloor_eq. lra.
    - rewrite trunc_neg by lra. apply Zceil_eq. lra. }
  rewrite generate_sine_wave_ok; [rewrite E; reflexivity | exact Hsr | exact Hfin | lia].
Qed.

Lemma generate_sine_wave_empty_witness :
  (Z.abs 44100 < 2 ^ 1024)%Z /\ in_double_range (IZR 44100 * 0) /\
  -1 < float_mul (IZR 44100) 0 < 1 /\
  generate_sine_wave 44100 0 440 (1 / 2) = Ok [].
Proof.
  assert (Z.abs 44100 < 2 ^ 1024)%Z as H1 by reflexivity.
  assert (in_double_range (IZR 44100 * 0)) as H2.
  { rewrite <- mult_IZR. apply in_double_range_IZR. reflexivity. }
  assert (-1 < float_mul (IZR 44100) 0 < 1) as H3.
  { unfold float_mul. rewrite Rmult_0_r, round_double_0. lra. }
  split; [exact H1 |]. split; [exact H2 |]. split; [exact H3 |].
  exact (generate_sine_wave_empty 44100 0 440 (1 / 2) H1 H2 H3).
Defined.

(** X23.  The number of frames is the integer part of the rounded
    product, which can exceed the floor of the exact one: with a rate of
    10 and the double nearest to 0.3 the exact product is below 3 and
    there are 3 frames; with a rate of 3 and the double nearest to 1/3
    it is below 1 and there is 1 frame. *)
Theorem generate_sine_wave_rounded_count (f a : R) :
  (10 * three_tenths < 3 /\
   exists v0 v1 v2,
     generate_sine_wave 10 three_tenths f a = Ok [v0; v0; v1; v1; v2; v2]) /\
  (3 * one_third < 1 /\
   exists v, generate_sine_wave 3 one_third f a = Ok [v; v]).
Proof.
  assert (sample_count 10 three_tenths = 3%Z) as E10.
  { unfold sample_count. rewrite (proj2 float_mul_three_tenths).
    apply (trunc_IZR 3). }
  assert (sample_count 3 one_third = 1%Z) as E3.
  { unfold sample_count. rewrite (proj2 float_mul_one_third).
    apply (trunc_IZR 1). }
  split; (split; [apply float_mul_three_tenths || apply float_mul_one_third |]).
  - do 3 eexists. rewrite generate_sine_wave_ok.
    + rewrite E10. reflexivity.
    + reflexivity.
    + apply (in_double_range_small _ 3); [| discriminate].
      unfold three_tenths. rewrite Rabs_pos_eq by lra. lra.
    + rewrite E10. lia.
  - eexists. rewrite generate_sine_wave_ok.
    + rewrite E3. reflexivity.
    + reflexivity.
    + apply (in_double_range_small _ 1); [| discriminate].
      unfold one_third. rewrite Rabs_pos_eq by lra. lra.
    + rewrite E3. lia.
Qed.

(** X9.  A zero amplitude or a zero frequency gives silence: every value of
    the result is 0.  The call returns when the product [sr * dur], as
    the code computes it, is above -1. *)
Theorem generate_sine_wave_silence (sr : Z) (dur f a : R) :
  (Z.abs sr < 2 ^ 1024)%Z -> in_double_range (IZR sr * dur) ->
  -1 < float_mul (IZR sr) dur -> a = 0 \/ f = 0 ->
  exists out, generate_sine_wave sr dur f a = Ok out /\
              forall v, v ∈ out -> v = 0%Z.
Proof.
  intros Hsr Hfin Hdur Hz. pose proof (trunc_gt_m1 _ Hdur) as Hn.
  fold (sample_count sr dur) in Hn.
  eexists. split; [apply generate_sine_wave_ok; assumption |].
  intros v Hv. apply (proj1 (elem_of_stereo _ _)) in Hv.
  unfold sine_wave_int, sine_wave in Hv.
  apply list_elem_of_fmap in Hv as [s [-> Hs]].
  apply list_elem_of_fmap in Hs as [ti [-> _]].
  replace (a * sin (2 * PI * f * ti) * 32767) with (IZR 0).
  - unfold np_int16. rewrite trunc_IZR. reflexivity.
  - destruct Hz as [-> | ->]; [ring |].
    replace (2 * PI * 0 * ti) with 0 by ring. rewrite sin_0. ring.
Qed.

Lemma float_mul_scaled (sr : Z) :
  (Z.abs (sr * 5) < 2 ^ 53)%Z -> float_mul (IZR sr) 5 = IZR (sr * 5).
Proof. apply (float_mul_IZR sr 5). Qed.

Lemma generate_sine_wave_silence_witness :
  (Z.abs 48000 < 2 ^ 1024)%Z /\ in_double_range (IZR 48000 * 5) /\
  -1 < float_mul (IZR 48000) 5 /\ (0 = 0 \/ 440 = 0) /\
  exists out, generate_sine_wave 48000 5 440 0 = Ok out /\
              forall v, v ∈ out -> v = 0%Z.
Proof.
  assert (Z.abs 48000 < 2 ^ 1024)%Z as H1 by reflexivity.
  assert (in_double_range (IZR 48000 * 5)) as H2.
  { rewrite <- mult_IZR. apply in_double_range_IZR. reflexivity. }
  assert (-1 < float_mul (IZR 48000) 5) as H3.
  { rewrite float_mul_scaled by reflexivity. apply IZR_lt. reflexivity. }
  assert (0 = 0 \/ 440 = 0) as H4 by (left; reflexivity).
  split; [exact H1 |]. split; [exact H2 |]. split; [exact H3 |].
  split; [exact H4 |].
  exact (generate_sine_wave_silence 48000 5 440 0 H1 H2 H3 H4).
Defined.

Lemma sine_wave_int_opp f a (t : list R) :
  -1 <= a <= 1 ->
  sine_wave_int (sine_wave f (- a) t) = Z.opp <$> sine_wave_int (sine_wave f a t) /\
  sine_wave_int (sine_wave (- f) a t) = Z.opp <$> sine_wave_int (sine_wave f a t).
Proof.
  intros Ha. unfold sine_wave_int, sine_wave.
  change (map ?g ?l) with (g <$> l). rewrite <- !list_fmap_compose.
  assert (forall ti,
    np_int16 (- a * sin (2 * PI * f * ti) * 32767)
    = (- np_int16 (a * sin (2 * PI * f * ti) * 32767))%Z) as E.
  { intros ti.
    destruct (no_wrap_samples f a [ti] Ha (a * sin (2 * PI * f * ti)))
      as [_ ->]; [apply list_elem_of_here |].
    destruct (no_wrap_samples f (- a) [ti] ltac:(lra)
                (- a * sin (2 * PI * f * ti))) as [_ ->];
      [apply list_elem_of_here |].
    rewrite <- trunc_opp. f_equal. ring. }
  split; apply list_fmap_ext; intros _ ti _; cbn.
  - apply E.
  - rewrite <- E. f_equal.
    replace (2 * PI * - f * ti) with (- (2 * PI * f * ti)) by ring.
    rewrite sin_neg. ring.
Qed.

(** X10.  Inverting the amplitude, or the frequency, inverts the waveform
    sample by sample, for amplitudes in [[-1, 1]].  The call returns when
    the product [sr * dur], as the code computes it, is above -1. *)
Theorem generate_sine_wave_inverted (sr : Z) (dur f a : R) :
  (Z.abs sr < 2 ^ 1024)%Z -> in_double_range (IZR sr * dur) ->
  -1 < float_mul (IZR sr) dur -> -1 <= a <= 1 ->
  exists out,
    generate_sine_wave sr dur f a = Ok out /\
    generate_sine_wave sr dur f (- a) = Ok (Z.opp <$> out) /\
    generate_sine_wave sr dur (- f) a = Ok (Z.opp <$> out).
Proof.
  intros Hsr Hfin Hdur Ha. pose proof (trunc_gt_m1 _ Hdur) as Hn.
  fold (sample_count sr dur) in Hn.
  eexists. split; [apply generate_sine_wave_ok; assumption |].
  rewrite !generate_sine_wave_ok by assumption.
  destruct (sine_wave_int_opp f a (time_grid dur (sample_count sr dur)) Ha)
    as [-> ->].
  rewrite stereo_fmap. split; reflexivity.
Qed.

Lemma generate_sine_wave_inverted_witness :
  (Z.abs 44100 < 2 ^ 1024)%Z /\ in_double_range (IZR 44100 * 5) /\
  -1 < float_mul (IZR 44100) 5 /\ -1 <= 1 / 2 <= 1 /\
  exists out,
    generate_sine_wave 44100 5 440 (1 / 2) = Ok out /\
    generate_sine_wave 44100 5 440 (- (1 / 2)) = Ok (Z.opp <$> out).
Proof.
  assert (Z.abs 44100 < 2 ^ 1024)%Z as H1 by reflexivity.
  assert (in_double_range (IZR 44100 * 5)) as H2.
  { rewrite <- mult_IZR. apply in_double_range_IZR. reflexivity. }
  assert (-1 < float_mul (IZR 44100) 5) as H3.
  { rewrite float_mul_scaled by reflexivity. apply IZR_lt. reflexivity. }
  assert (-1 <= 1 / 2 <= 1) as H4 by lra.
  split; [exact H1 |]. split; [exact H2 |]. split; [exact H3 |].
  split; [exact H4 |].
  destruct (generate_sine_wave_inverted 44100 5 440 (1 / 2) H1 H2 H3 H4)
    as (out & E1 & E2 & _).
  exists out. split; [exact E1 | exact E2].
Defined.

(** X11.  For an amplitude [a] in [[0, 1]] no value of the result exceeds
    [a * 32767], rounded up to an integer, in magnitude. *)
Theorem generate_sine_wave_peak (sr : Z) (dur f a : R) (out : list Z) :
  0 <= a <= 1 ->
  generate_sine_wave sr dur f a = Ok out ->
  forall v, v ∈ out -> (Z.abs v <= Zceil (a * 32767))%Z.
Proof.
  intros Ha Hout v Hv.
  destruct (generate_sine_wave_inv _ _ _ _ _ Hout) as (t & _ & ->).
  apply (proj1 (elem_of_stereo _ _)) in Hv.
  unfold sine_wave_int in Hv. apply list_elem_of_fmap in Hv as [s [-> Hs]].
  destruct (no_wrap_samples f a _ ltac:(lra) s Hs) as [_ ->].
  unfold sine_wave in Hs. apply list_elem_of_fmap in Hs as [ti [-> _]].
  pose proof (abs_sin_le_1 (2 * PI * f * ti)) as Hsin.
  assert (trunc (a * sin (2 * PI * f * ti) * 32767) <= trunc (a * 32767))%Z
    by (apply trunc_le; nra).
  assert (trunc (- (a * 32767)) <= trunc (a * sin (2 * PI * f * ti) * 32767))%Z
    as Hlo by (apply trunc_le; nra).
  rewrite trunc_opp in Hlo.
  assert (trunc (a * 32767) <= Zceil (a * 32767))%Z.
  { rewrite trunc_nonneg by lra.
    pose proof (Zfloor_ceil_bound (a * 32767)) as [H1 H2].
    apply le_IZR. lra. }
  lia.
Qed.

Lemma generate_sine_wave_peak_witness :
  0 <= 1 / 2 <= 1 /\
  exists out, generate_sine_wave 44100 5 440 (1 / 2) = Ok out /\
              forall v, v ∈ out -> (Z.abs v <= 16384)%Z.
Proof.
  assert (0 <= 1 / 2 <= 1) as H1 by lra.
  split; [exact H1 |].
  destruct (generate_sine_wave_returns 44100 5 440 (1 / 2)) as [out Hout].
  - reflexivity.
  - rewrite <- mult_IZR. apply in_double_range_IZR. reflexivity.
  - lra.
  - exists out. split; [exact Hout |]. intros v Hv.
    pose proof (generate_sine_wave_peak 44100 5 440 (1 / 2) out H1 Hout v Hv) as Hb.
    rewrite (Zceil_eq 16384) in Hb by lra. exact Hb.
Defined.

(** ** The WAV writer *)


Lemma wav_file_returns sr data :
  (0 < sr)%Z -> (4 * sr < 2 ^ 32)%Z -> int16_list data ->
  (36 + 2 * Z.of_nat (length data) < 2 ^ 32)%Z ->
  exists content, wav_file sr data = Ok content.
Proof.
  intros Hsr Hrate Hdata Hlen. unfold wav_file.
  destruct (Z.leb_spec sr 0); [lia |].
  destruct (map_result_pack_h data Hdata) as [frames [-> Hfr]]. cbn [bind].
  unfold wav_header. rewrite Hfr.
  rewrite (pack_L_ok (36 + _)) by lia. cbn [bind].
  rewrite (pack_L_ok 16) by lia. cbn [bind].
  rewrite (pack_H_ok 1) by lia. cbn [bind].
  rewrite (pack_H_ok 2) by lia. cbn [bind].
  rewrite (pack_L_ok sr) by lia. cbn [bind].
  rewrite (pack_L_ok (2 * sr * 2)) by lia. cbn [bind].
  rewrite (pack_H_ok (2 * 2)) by lia. cbn [bind].
  rewrite (pack_H_ok (2 * 8)) by lia. cbn [bind].
  rewrite (pack_L_ok (Z.of_nat _)) by lia. cbn [bind].
  eexists. reflexivity.
Qed.

Lemma wav_file_ok_inv sr data content :
  wav_file sr data = Ok content ->
  (0 < sr)%Z /\ (4 * sr < 2 ^ 32)%Z /\ int16_list data /\
  (36 + 2 * Z.of_nat (length data) < 2 ^ 32)%Z.
Proof.
  unfold wav_file. destruct (Z.leb_spec sr 0) as [| Hsr]; [discriminate |].
  intros H. apply bind_ok_inv in H as (frames & Hfr & H).
  apply map_result_pack_h_inv in Hfr as [Hall ->].
  apply bind_ok_inv in H as (header & Hh & _).
  unfold wav_header in Hh. rewrite length_packed in Hh.
  apply bind_ok_inv in Hh as (x1 & H1 & Hh). apply pack_L_inv in H1 as [R1 _].
  apply bind_ok_inv in Hh as (x2 & _ & Hh).
  apply bind_ok_inv in Hh as (x3 & _ & Hh).
  apply bind_ok_inv in Hh as (x4 & _ & Hh).
  apply bind_ok_inv in Hh as (x5 & _ & Hh).
  apply bind_ok_inv in Hh as (x6 & H6 & _). apply pack_L_inv in H6 as [R6 _].
  split; [exact Hsr |]. split; [lia |]. split; [exact Hall | lia].
Qed.

Lemma bind_raise_inv {A B : Type} (r : result A) (k : A -> result B) e :
  bind r k = Raise e -> r = Raise e \/ exists a, r = Ok a /\ k a = Raise e.
Proof. destruct r as [a | e']; cbn; [eauto | intros [= ->]; auto]. Qed.

Lemma pack_h_raise v e : pack_h v = Raise e -> e = StructError.
Proof. unfold pack_h. destruct (_ && _); [discriminate | congruence]. Qed.

Lemma pack_H_raise v e : pack_H v = Raise e -> e = StructError.
Proof. unfold pack_H. destruct (_ && _); [discriminate | congruence]. Qed.

Lemma pack_L_raise v e : pack_L v = Raise e -> e = StructError.
Proof. unfold pack_L. destruct (_ && _); [discriminate | congruence]. Qed.

Lemma map_result_pack_h_raise data e :
  map_result pack_h data = Raise e -> e = StructError.
Proof.
  induction data as [| v data IH]; cbn [map_result]; [discriminate |].
  intros H. apply bind_raise_inv in H as [H | (f & _ & H)];
    [eapply pack_h_raise; eassumption |].
  apply bind_raise_inv in H as [H | (fs & _ & H)]; [auto | discriminate].
Qed.

Lemma wav_header_raise c w r d e :
  wav_header c w r d = Raise e -> e = StructError.
Proof.
  unfold wav_header. intros H.
  repeat (apply bind_raise_inv in H as [H | (? & _ & H)];
          [first [eapply pack_L_raise; eassumption
                 | eapply pack_H_raise; eassumption] |]).
  discriminate.
Qed.

Lemma wav_file_raise sr data e :
  wav_file sr data = Raise e ->
  ((sr <= 0)%Z /\ e = WaveError) \/ ((0 < sr)%Z /\ e = StructError).
Proof.
  unfold wav_file. destruct (Z.leb_spec sr 0) as [Hsr | Hsr].
  - intros [= <-]. left. auto.
  - intros H. right. split; [exact Hsr |].
    apply bind_raise_inv in H as [H | (frames & _ & H)];
      [eapply map_result_pack_h_raise; eassumption |].
    apply bind_raise_inv in H as [H | (hdr & _ & H)];
      [eapply wav_header_raise; eassumption | discriminate].
Qed.

(** X13.  The errors of [save_wav_file]: a sample rate of 0 or less raises the
    [wave] module's error, whatever the data; with a positive rate, a
    sample outside int16, a rate of [2^30] or more, or data too long for
    the size fields raise [struct.error]. *)
Theorem save_wav_file_errors (filename : string) (sr : Z) (data : list Z)
    (fs : gmap string (list byte)) :
  ((sr <= 0)%Z -> save_wav_file filename sr data fs = Raise WaveError) /\
  ((0 < sr)%Z ->
   ~ ((4 * sr < 2 ^ 32)%Z /\ int16_list data /\
      (36 + 2 * Z.of_nat (length data) < 2 ^ 32)%Z) ->
   save_wav_file filename sr data fs = Raise StructError).
Proof.
  unfold save_wav_file. split.
  - intros Hsr. unfold wav_file.
    destruct (Z.leb_spec sr 0); [reflexivity | lia].
  - intros Hsr Hbad. destruct (wav_file sr data) as [content | e] eqn:E.
    + exfalso. apply Hbad. apply wav_file_ok_inv in E. tauto.
    + apply wav_file_raise in E as [[? _] | [_ ->]]; [lia | reflexivity].
Qed.

Example save_wav_file_bad_sample :
  save_wav_file "a.wav" 44100 [0; 40000]%Z ∅ = Raise StructError.
Proof. reflexivity. Qed.

Example save_wav_file_bad_rate :
  save_wav_file "a.wav" 0 [0; 40000]%Z ∅ = Raise WaveError.
Proof. reflexivity. Qed.


Example save_wav_file_small :
  save_wav_file "a.wav" 44100 [1; -2]%Z ∅
  = Ok {[ "a.wav"%string :=
          bytes_of_string "RIFF" ++ [x28; x00; x00; x00]
          ++ bytes_of_string "WAVEfmt " ++ [x10; x00; x00; x00; x01; x00; x02; x00]
          ++ [x44; xac; x00; x00; x10; xb1; x02; x00; x04; x00; x10; x00]
          ++ bytes_of_string "data" ++ [x04; x00; x00; x00]
          ++ [x01; x00; xfe; xff] ]}.
Proof. reflexivity. Qed.


(** With three samples the last one is not part of a frame. *)
Example read_wav_odd :
  exists content,
    wav_file 44100 [1; 2; 3]%Z = Ok content /\
    wav_samples <$> read_wav content = Some [1; 2]%Z.
Proof. eexists. split; reflexivity. Qed.

(** ** Synthesizer and writer together *)

Lemma generated_int16 f a (t : list R) :
  int16_list (stereo (sine_wave_int (sine_wave f a t))).
Proof.
  apply Forall_forall. intros v Hv. apply (proj1 (elem_of_stereo _ _)) in Hv.
  unfold sine_wave_int in Hv. apply list_elem_of_fmap in Hv as [s [-> _]].
  apply wrap16_range.
Qed.

(** X15.  Whatever [generate_sine_wave] returns can be saved: the samples
    are int16 values for every amplitude and, for a sample rate in
    [(0, 2^30)] and data that fit the 32-bit size fields,
    [save_wav_file] returns and the file, of [44 + 4 * int (sr * dur)]
    bytes, reads back as the samples generated. *)
Theorem generate_then_save (filename : string) (sr : Z) (dur f a : R)
    (data : list Z) (fs : gmap string (list byte)) :
  generate_sine_wave sr dur f a = Ok data ->
  (0 < sr)%Z -> (4 * sr < 2 ^ 32)%Z ->
  (36 + 2 * Z.of_nat (length data) < 2 ^ 32)%Z ->
  int16_list data /\
  exists content,
    save_wav_file filename sr data fs = Ok (<[filename := content]> fs) /\
    Z.of_nat (length content) = (44 + 4 * trunc (float_mul (IZR sr) dur))%Z /\
    read_wav content =
      Some {| wav_channels := 2; wav_sampwidth := 2;
              wav_framerate := sr; wav_samples := data |}.
Proof.
  intros Hout Hsr Hrate Hsize.
  destruct (generate_sine_wave_inv _ _ _ _ _ Hout) as (t & Ht & ->).
  destruct (sample_times_inv _ _ _ Ht) as [Hn ->].
  set (data := stereo (sine_wave_int
                 (sine_wave f a (time_grid dur (sample_count sr dur))))) in *.
  assert (length data = (2 * Z.to_nat (sample_count sr dur))%nat) as Hlen
    by apply length_generated.
  split; [apply generated_int16 |].
  destruct (wav_file_returns sr data Hsr Hrate (generated_int16 _ _ _) Hsize)
    as [content Hc].
  exists content.
  split; [unfold save_wav_file; rewrite Hc; reflexivity |].
  destruct (wav_file_read_back sr data content Hc) as [Hl Hr].
  split; [rewrite Hl, Hlen; unfold sample_count in *; lia |].
  rewrite Hr, whole_frames_even by apply even_length_stereo. reflexivity.
Qed.

Lemma generate_then_save_witness :
  exists data content,
    generate_sine_wave 10 three_tenths 440 2 = Ok data /\
    (0 < 10)%Z /\ (4 * 10 < 2 ^ 32)%Z /\
    save_wav_file "a.wav" 10 data ∅ = Ok (<["a.wav"%string := content]> ∅) /\
    Z.of_nat (length content) = 56%Z.
Proof.
  destruct (generate_sine_wave_returns 10 three_tenths 440 2) as [data Hd].
  - reflexivity.
  - apply (in_double_range_small _ 3); [| discriminate].
    unfold three_tenths. rewrite Rabs_pos_eq by lra. lra.
  - unfold three_tenths. lra.
  - assert (0 < 10)%Z as H1 by reflexivity.
    assert (4 * 10 < 2 ^ 32)%Z as H2 by reflexivity.
    assert (Z.of_nat (length data) = 6%Z) as Hlen.
    { destruct (generate_sine_wave_inv _ _ _ _ _ Hd) as (t & Ht & ->).
      destruct (sample_times_inv _ _ _ Ht) as [_ ->].
      rewrite length_generated. unfold sample_count.
      rewrite (proj2 float_mul_three_tenths), (trunc_IZR 3). reflexivity. }
    assert (36 + 2 * Z.of_nat (length data) < 2 ^ 32)%Z as H3
      by (rewrite Hlen; reflexivity).
    destruct (generate_then_save "a.wav" 10 three_tenths 440 2 data ∅ Hd H1 H2 H3)
      as (_ & content & Hs & Hl & _).
    exists data, content. split; [exact Hd |]. split; [exact H1 |].
    split; [exact H2 |]. split; [exact Hs |].
    rewrite Hl, (proj2 float_mul_three_tenths), (trunc_IZR 3). reflexivity.
Defined.

(** ** The driver *)

Lemma names_ordered_bank : names_ordered triples = true.
Proof. vm_compute. reflexivity. Qed.

Lemma string_ltb_irrefl s : String.ltb s s = false.
Proof.
  unfold String.ltb. pose proof (String.compare_antisym s s) as H.
  destruct (String.compare s s); [reflexivity | discriminate H | reflexivity].
Qed.

Lemma string_ltb_asym a b : String.ltb a b = true -> String.ltb b a = false.
Proof.
  unfold String.ltb. pose proof (String.compare_antisym a b) as H.
  destruct (String.compare a b), (String.compare b a); cbn in *; congruence.
Qed.

Lemma string_ltb_le a b : String.ltb a b = true -> String.le a b.
Proof.
  unfold String.le, String.ltb, String.leb.
  destruct (String.compare a b); cbn; [discriminate | intros _; exact I | discriminate].
Qed.

Lemma string_ltb_trans a b c :
  String.ltb a b = true -> String.ltb b c = true -> String.ltb a c = true.
Proof.
  intros Hab Hbc.
  assert (String.le a c) as Hle.
  { transitivity b; apply string_ltb_le; assumption. }
  unfold String.le, String.leb in Hle. unfold String.ltb.
  destruct (String.compare a c) eqn:E; cbn in Hle; [| reflexivity | contradiction].
  apply String.compare_eq_iff in E. subst c.
  rewrite (string_ltb_asym _ _ Hab) in Hbc. discriminate.
Qed.

Lemma triple_ltb_spec t1 t2 :
  triple_ltb t1 t2 = true <->
  (t1.1.1 < t2.1.1 \/
   t1.1.1 = t2.1.1 /\ (t1.1.2 < t2.1.2 \/ t1.1.2 = t2.1.2 /\ t1.2 < t2.2))%Z.
Proof.
  destruct t1 as [[n1 v1] s1], t2 as [[n2 v2] s2]. cbn.
  rewrite !orb_true_iff, !andb_true_iff, !orb_true_iff, !andb_true_iff.
  rewrite !Z.ltb_lt, !Z.eqb_eq. reflexivity.
Qed.

Lemma triple_ltb_false t1 t2 :
  t1 = t2 \/ triple_ltb t2 t1 = true -> triple_ltb t1 t2 = false.
Proof.
  intros H. apply not_true_is_false. rewrite triple_ltb_spec.
  destruct H as [-> | H]; [lia |]. apply triple_ltb_spec in H. lia.
Qed.

Lemma name_before_trans : Relations_1.Transitive name_before.
Proof.
  intros t1 t2 t3 [H12 N12] [H23 N23]. split.
  - apply triple_ltb_spec in H12, H23. apply triple_ltb_spec. lia.
  - eapply string_ltb_trans; eassumption.
Qed.

Lemma names_ordered_sorted l :
  names_ordered l = true ->
  Sorted name_before l /\
  Forall (fun tr => String.length (file_name tr) = 17%nat) l.
Proof.
  induction l as [| t1 l IH]; intros H; [split; constructor |].
  cbn [names_ordered] in H.
  apply andb_prop in H as [H Hl]. apply andb_prop in H as [Hlen Hnext].
  destruct (IH Hl) as [Hs Hf]. split.
  - constructor; [exact Hs |]. destruct l as [| t2 l]; constructor.
    apply andb_prop in Hnext. exact Hnext.
  - constructor; [apply Nat.eqb_eq; exact Hlen | exact Hf].
Qed.

Lemma strongly_sorted_cases {A : Type} (rel : A -> A -> Prop) (l : list A) x y :
  StronglySorted rel l -> x ∈ l -> y ∈ l -> x = y \/ rel x y \/ rel y x.
Proof.
  induction 1 as [| a l Hs IH Ha]; intros Hx Hy.
  - apply elem_of_nil in Hx. contradiction.
  - rewrite Forall_forall in Ha.
    apply elem_of_cons in Hx as [-> | Hx]; apply elem_of_cons in Hy as [-> | Hy].
    + left. reflexivity.
    + right. left. apply Ha. exact Hy.
    + right. right. apply Ha. exact Hx.
    + apply IH; assumption.
Qed.

(** X16.  Zero padding makes the names sort like the bank: every name has 17
    characters, and one name is lexicographically below another exactly
    when its (note, tier, rate) comes first. *)
Theorem file_names_sorted (t1 t2 : Z * Z * Z) :
  in_bank t1 -> in_bank t2 ->
  String.length (file_name t1) = 17%nat /\
  String.ltb (file_name t1) (file_name t2) = triple_ltb t1 t2.
Proof.
  intros H1 H2. apply elem_of_triples in H1, H2.
  destruct (names_ordered_sorted _ names_ordered_bank) as [Hs Hf].
  split; [exact (proj1 (Forall_forall _ _) Hf t1 H1) |].
  apply (Sorted_StronglySorted name_before_trans) in Hs.
  destruct (strongly_sorted_cases _ _ t1 t2 Hs H1 H2) as [-> | [[Ht Hn] | [Ht Hn]]].
  - rewrite string_ltb_irrefl, triple_ltb_false by auto. reflexivity.
  - rewrite Ht, Hn. reflexivity.
  - rewrite (string_ltb_asym _ _ Hn), triple_ltb_false by auto. reflexivity.
Qed.

Lemma file_names_sorted_witness :
  in_bank (69, 7, 48000)%Z /\ in_bank (100, 0, 44100)%Z /\
  String.ltb "m069-vel7-f48.wav" "m100-vel0-f44.wav" = true.
Proof.
  assert (in_bank (69, 7, 48000)%Z) as H1 by (cbn; lia).
  assert (in_bank (100, 0, 44100)%Z) as H2 by (cbn; lia).
  split; [exact H1 |]. split; [exact H2 |].
  exact (proj2 (file_names_sorted _ _ H1 H2)).
Defined.

(** X18.  Every file of the bank is a complete WAV file of 5 seconds: it has
    [44 + 20 * rate] bytes and reads back as 2 channels, 2 bytes per
    sample, its sample rate, and the [10 * rate] samples computed for
    its triple. *)
Theorem main_writes_wav (env : environ) (arg : option string)
    (fs : gmap string (list byte)) (note vel sr : Z) :
  in_bank (note, vel, sr) ->
  exists out content data,
    main env arg fs = Ok out /\
    out !! file_path env arg (note, vel, sr) = Some content /\
    sample_data (note, vel, sr) = Ok data /\
    Z.of_nat (length data) = (10 * sr)%Z /\
    Z.of_nat (length content) = (44 + 20 * sr)%Z /\
    read_wav content =
      Some {| wav_channels := 2; wav_sampwidth := 2;
              wav_framerate := sr; wav_samples := data |}.
Proof.
  intros Hin.
  destruct (sample_data_ok note vel sr Hin) as [E (data & Hd & Hlen & _)].
  destruct (sample_file_ok _ Hin) as [content Hc].
  exists (write_all env arg fs), content, data.
  split; [apply main_ok |].
  split; [apply lookup_write_all; assumption |].
  split; [rewrite E; exact Hd |]. split; [exact Hlen |].
  unfold sample_file in Hc. rewrite E, Hd in Hc. cbn [bind snd] in Hc.
  destruct (wav_file_read_back sr data content Hc) as [Hl Hr].
  split; [rewrite Hl; lia |].
  rewrite Hr, whole_frames_even; [reflexivity |].
  apply Nat.even_spec. exists (Z.to_nat (5 * sr)). lia.
Qed.

Lemma main_writes_wav_witness :
  in_bank (69, 7, 44100)%Z /\
  exists out content,
    main {| platform_system := "Linux"; home_dir := Some "/home/user"%string |}
         None ∅ = Ok out /\
    out !! "/home/user/Soundbank/IthacaPlayer/instrument/m069-vel7-f44.wav"%string
      = Some content /\
    Z.of_nat (length content) = 882044%Z.
Proof.
  assert (in_bank (69, 7, 44100)%Z) as H by (cbn; lia).
  split; [exact H |].
  destruct (main_writes_wav
              {| platform_system := "Linux"; home_dir := Some "/home/user"%string |}
              None ∅ 69 7 44100 H)
    as (out & content & data & Hm & Hl & _ & _ & Hlen & _).
  exists out, content. split; [exact Hm |]. split; [exact Hl | exact Hlen].
Defined.

(** X19.  Off Windows, a run with [--output-dir d], [d] not empty, that
    returns has written every file at [os.path.join(d, name)], which is
    [d/name], or [d] followed by [name] when [d] ends with a slash, with
    the bytes computed for its triple; an empty [d] counts as absent and
    selects the default directory. *)
Theorem main_output_dir (env : environ) (d : string)
    (fs out : gmap string (list byte)) :
  is_windows env = false -> d <> ""%string ->
  main env (Some d) fs = Ok out ->
  (forall tr, in_bank tr ->
     exists content,
       sample_file tr = Ok content /\
       out !! path_join env d (file_name tr) = Some content /\
       path_join env d (file_name tr) =
         if bool_decide (last_char d = Some "/"%char)
         then (d ++ file_name tr)%string
         else (d ++ "/" ++ file_name tr)%string) /\
  main env (Some ""%string) fs = main env None fs.
Proof.
  intros Hw Hd Hm. split; [| reflexivity].
  rewrite main_ok in Hm. injection Hm as <-.
  intros tr Hin. destruct (sample_file_ok tr Hin) as [content Hc].
  exists content. split; [exact Hc |]. split.
  - replace (path_join env d (file_name tr)) with (file_path env (Some d) tr).
    + apply lookup_write_all; assumption.
    + unfold file_path, resolve_output_dir.
      destruct (String.eqb_spec d ""); [contradiction | reflexivity].
  - unfold path_join. rewrite Hw.
    destruct (last_char d) as [c |] eqn:El.
    + destruct (Ascii.eqb_spec c "/") as [-> | Hne].
      * rewrite bool_decide_eq_true_2 by reflexivity. reflexivity.
      * rewrite bool_decide_eq_false_2 by congruence. reflexivity.
    + destruct d as [| c d']; [contradiction |].
      exfalso. clear -El. revert c El.
      induction d' as [| c' d' IH]; intros c El; cbn in El; [discriminate |].
      exact (IH c' El).
Qed.

Lemma main_output_dir_witness :
  exists out content,
    is_windows {| platform_system := "Linux"; home_dir := None |} = false /\
    "out"%string <> ""%string /\
    main {| platform_system := "Linux"; home_dir := None |} (Some "out"%string) ∅
      = Ok out /\
    out !! "out/m021-vel0-f48.wav"%string = Some content.
Proof.
  assert (is_windows {| platform_system := "Linux"; home_dir := None |} = false)
    as H1 by reflexivity.
  assert ("out"%string <> ""%string) as H2 by discriminate.
  eexists.
  destruct (main_output_dir {| platform_system := "Linux"; home_dir := None |}
              "out" ∅ _ H1 H2 (main_ok _ _ _)) as [Hf _].
  destruct (Hf (21, 0, 48000)%Z ltac:(cbn; lia)) as (content & _ & Hl & _).
  exists content. split; [exact H1 |]. split; [exact H2 |].
  split; [apply main_ok | exact Hl].
Defined.

Lemma freq_108_upper : freq_of 108 < 4187.
Proof.
  unfold freq_of. change (108 - 69)%Z with 39%Z.
  set (x := Rpower 2 (39 / 12)).
  assert (0 < x) as Hx by apply Rpower_pos.
  assert (x ^ 4 = 8192) as Hx4.
  { unfold x. rewrite <- (Rpower_pow 4) by apply Rpower_pos.
    rewrite Rpower_mult. replace (39 / 12 * INR 4) with 13 by (cbn; lra).
    rewrite Rpower_nat by (lra || lia). rewrite pow_IZR. f_equal. }
  apply Rnot_le_lt. intros Hle.
  assert (4187 ^ 4 <= (440 * x) ^ 4) as Hpow by (apply pow_incr; lra).
  rewrite Rpow_mult_distr, Hx4, !pow_IZR, <- mult_IZR in Hpow.
  apply le_IZR in Hpow. revert Hpow. vm_compute. intros H. apply H. reflexivity.
Qed.

Lemma freq_21 : freq_of 21 = 27.5.
Proof.
  unfold freq_of. change (21 - 69)%Z with (-48)%Z.
  replace (-48 / 12) with (- (4)) by lra.
  rewrite Rpower_Ropp, Rpower_nat by (lra || lia).
  change (Z.to_nat 4) with 4%nat. lra.
Qed.

(** X20.  The frequencies of the bank: note 21 is exactly 27.5 Hz, and every
    note 21..108 lies between 27.5 Hz and 4187 Hz, well below half of
    either sample rate. *)
Theorem bank_frequencies (note : Z) :
  (21 <= note <= 108)%Z ->
  exists f, midi_to_freq note = Ok f /\
            27.5 <= f < 4187 /\ 2 * f < 44100 /\
            (note = 21%Z -> f = 27.5).
Proof.
  intros Hn. exists (freq_of note). split; [apply midi_to_freq_ok; lia |].
  assert (27.5 <= freq_of note) as Hlo.
  { rewrite <- freq_21. destruct (Z.eq_dec note 21%Z) as [-> | Hne]; [lra |].
    left. apply freq_of_lt. lia. }
  assert (freq_of note < 4187) as Hhi.
  { destruct (Z.eq_dec note 108%Z) as [-> | Hne]; [apply freq_108_upper |].
    apply Rlt_trans with (freq_of 108); [apply freq_of_lt; lia |].
    apply freq_108_upper. }
  split; [split; assumption |]. split; [lra |].
  intros ->. apply freq_21.
Qed.

Lemma bank_frequencies_witness :
  (21 <= 21 <= 108)%Z /\ midi_to_freq 21 = Ok 27.5.
Proof.
  assert (21 <= 21 <= 108)%Z as H by lia.
  split; [exact H |].
  destruct (bank_frequencies 21 H) as (f & Hf & _ & _ & E).
  rewrite Hf, (E eq_refl). reflexivity.
Defined.

(** X21.  The tiers are a geometric scale: the level of each tier is 24/7 dB
    above the one before, so its amplitude is the previous one times
    [10^(6/35)], strictly larger. *)
Theorem tier_amplitudes (vel : Z) :
  (0 <= vel <= 6)%Z ->
  exists db_levels d1 d2 a1 a2,
    linspace (-30) (-6) 8 true = Ok db_levels /\
    array_get db_levels vel = Ok d1 /\
    array_get db_levels (vel + 1) = Ok d2 /\
    d2 - d1 = 24 / 7 /\
    db_to_amp d1 = Ok a1 /\ db_to_amp d2 = Ok a2 /\
    a2 = a1 * Rpower 10 (6 / 35) /\ a1 < a2.
Proof.
  intros Hv.
  pose proof (db_level_range vel ltac:(lia)) as R1.
  pose proof (db_level_range (vel + 1) ltac:(lia)) as R2.
  assert (db_level (vel + 1) - db_level vel = 24 / 7) as Hstep.
  { rewrite !db_level_even by lia. rewrite plus_IZR. lra. }
  exists (map db_level (seqZ 0 8)), (db_level vel), (db_level (vel + 1)),
    (amp_of vel), (amp_of (vel + 1)).
  split; [apply db_levels_ok |].
  split; [apply array_get_db_levels; lia |].
  split; [apply array_get_db_levels; lia |].
  split; [exact Hstep |].
  split; [apply db_to_amp_ok; lra |]. split; [apply db_to_amp_ok; lra |].
  unfold amp_of. split.
  - rewrite <- Rpower_plus. f_equal. lra.
  - apply Rpower_lt; lra.
Qed.

Lemma tier_amplitudes_witness :
  (0 <= 6 <= 6)%Z /\
  exists a1 a2, a2 = a1 * Rpower 10 (6 / 35) /\ a1 < a2.
Proof.
  assert (0 <= 6 <= 6)%Z as H by lia.
  split; [exact H |].
  destruct (tier_amplitudes 6 H)
    as (l & d1 & d2 & a1 & a2 & _ & _ & _ & _ & _ & _ & E & Hlt).
  exists a1, a2. split; [exact E | exact Hlt].
Defined.
